(** * A shallow embedding of [src/lora/model.py] (svd-lorafa)

    Tensors carry a shape and their row-major data over canonical
    rationals [Qc], so that equal values are equal in Rocq.  Everything the
    code draws at random (kaiming-uniform fill, dropout masks) and the
    decompositions it delegates to LAPACK ([torch.linalg.svd],
    [torch.linalg.qr]) are explicit inputs of the model. *)

From Stdlib Require Import String.
Set Warnings "-register-all".
From Stdlib Require Import QArith Qcanon List Arith Lia Bool.
Import ListNotations.
Open Scope string_scope.

(** ** Exceptions and the error monad *)

Inductive exn :=
| ValueError
| RuntimeError
| ZeroDivisionError
| AttributeError
| IndexError.

Inductive res (A : Type) :=
| Ok (a : A)
| Err (e : exn).
Arguments Ok {A} a.
Arguments Err {A} e.

Definition bind {A B} (m : res A) (k : A -> res B) : res B :=
  match m with
  | Ok a => k a
  | Err e => Err e
  end.

Notation "x <- m ;; k" := (bind m (fun x => k))
  (at level 61, m at next level, right associativity).

Fixpoint mapM {A B} (f : A -> res B) (l : list A) : res (list B) :=
  match l with
  | [] => Ok []
  | x :: r => y <- f x ;; ys <- mapM f r ;; Ok (y :: ys)
  end.

(** ** Tensors *)

Open Scope Qc_scope.

Record tensor := mkT { shape : list nat; data : list Qc }.

Definition numel (sh : list nat) : nat := fold_right Nat.mul 1%nat sh.

Definition nrows (t : tensor) : nat := nth 0 (shape t) 0%nat.
Definition ncols (t : tensor) : nat := nth 1 (shape t) 0%nat.
Definition is2d (t : tensor) : bool := Nat.eqb (length (shape t)) 2.

(** entry [t[i, j]] of a two-dimensional tensor *)
Definition get2 (t : tensor) (i j : nat) : Qc :=
  nth (i * ncols t + j) (data t) 0.

(** the [m x n] tensor with entries [f i j] *)
Definition mk2 (m n : nat) (f : nat -> nat -> Qc) : tensor :=
  mkT [m; n] (map (fun p => f (Nat.div p n) (Nat.modulo p n)) (seq 0 (m * n))).

Definition zeros (sh : list nat) : tensor := mkT sh (repeat 0 (numel sh)).
Definition ones (sh : list nat) : tensor := mkT sh (repeat 1 (numel sh)).

Fixpoint sumk (k : nat) (f : nat -> Qc) : Qc :=
  match k with
  | O => 0
  | S k' => sumk k' f + f k'
  end.

(** [torch.matmul] on two two-dimensional tensors *)
Definition matmul (a b : tensor) : res tensor :=
  if is2d a && is2d b && Nat.eqb (ncols a) (nrows b) then
    Ok (mk2 (nrows a) (ncols b)
          (fun i j => sumk (ncols a) (fun k => get2 a i k * get2 b k j)))
  else Err RuntimeError.

(** [t.T] of a two-dimensional tensor *)
Definition transpose (t : tensor) : tensor :=
  mk2 (ncols t) (nrows t) (fun i j => get2 t j i).

(** [t[:, :r]] *)
Definition slice_cols (t : tensor) (r : nat) : tensor :=
  mk2 (nrows t) (Nat.min r (ncols t)) (fun i j => get2 t i j).

(** [s[:r]] of a one-dimensional tensor *)
Definition slice1 (s : tensor) (r : nat) : tensor :=
  mkT [length (firstn r (data s))] (firstn r (data s)).

(** broadcast size of two dimensions, [None] when they do not broadcast *)
Definition bdim (x y : nat) : option nat :=
  if Nat.eqb x y then Some x
  else if Nat.eqb y 1 then Some x
  else if Nat.eqb x 1 then Some y
  else None.

Definition bidx (x i : nat) : nat := if Nat.eqb x 1 then 0%nat else i.

(** [t * s] with [t] of shape (m, c) and [s] one-dimensional: [s] is
    broadcast along the last dimension *)
Definition mul_row (t s : tensor) : res tensor :=
  let c' := length (data s) in
  match bdim (ncols t) c' with
  | Some c =>
      Ok (mk2 (nrows t) c (fun i j =>
            get2 t i (bidx (ncols t) j) * nth (bidx c' j) (data s) 0))
  | None => Err RuntimeError
  end.

(** [t * u] with both two-dimensional, broadcasting each dimension *)
Definition mul_bcast (t u : tensor) : res tensor :=
  match bdim (nrows t) (nrows u), bdim (ncols t) (ncols u) with
  | Some m, Some n =>
      Ok (mk2 m n (fun i j =>
            get2 t (bidx (nrows t) i) (bidx (ncols t) j)
            * get2 u (bidx (nrows u) i) (bidx (ncols u) j)))
  | _, _ => Err RuntimeError
  end.

(** [t.view(sh)] *)
Definition view (t : tensor) (sh : list nat) : res tensor :=
  if Nat.eqb (numel sh) (length (data t)) then Ok (mkT sh (data t))
  else Err RuntimeError.

(** [x + y] on tensors of one shape (broadcasting is not needed here) *)
Definition tadd (x y : tensor) : res tensor :=
  if list_eq_dec Nat.eq_dec (shape x) (shape y) then
    Ok (mkT (shape x) (map (fun '(a, b) => a + b) (combine (data x) (data y))))
  else Err RuntimeError.

(** [t * c] for a Python scalar [c] *)
Definition tscale (t : tensor) (c : Qc) : tensor := mkT (shape t) (map (fun a => a * c) (data t)).

Definition Qc_ltb (x y : Qc) : bool :=
  match (this x ?= this y)%Q with Lt => true | _ => false end.

Definition Qc_of_nat (n : nat) : Qc := Q2Qc (inject_Z (Z.of_nat n)).

(** ** Randomness and delegated decompositions *)

(** The values [nn.init.kaiming_uniform_] draws (by flat index), and the
    results of [torch.linalg.svd] (U, S, Vh) and [torch.linalg.qr] (Q, R). *)
Record oracles := mkOracles {
  kaiming_sample : nat -> Qc;
  svd : tensor -> res (tensor * tensor * tensor);
  qr : tensor -> res (tensor * tensor)
}.

(** The state [nn.Dropout] runs in: training mode and the Bernoulli draws. *)
Record env := mkEnv { training : bool; keep : nat -> bool }.

(** [nn.Dropout(p)(x)]: inverted dropout in training mode, identity in eval *)
Definition nn_dropout (p : Qc) (e : env) (x : tensor) : tensor :=
  if training e then
    mkT (shape x)
      (map (fun '(i, a) => if keep e i then a * / (1 - p) else 0)
         (combine (seq 0 (length (data x))) (data x)))
  else x.

(** [nn.init.kaiming_uniform_(t, a=sqrt(5))]: keeps the shape, draws the data *)
Definition kaiming_uniform_ (o : oracles) (t : tensor) : tensor :=
  mkT (shape t) (map (kaiming_sample o) (seq 0 (numel (shape t)))).

(** ** LoRAParametrization *)

(** [self.swap]: [(x[1], x[0])] when [fan_in_fan_out], else the identity *)
Definition swap (fan_in_fan_out : bool) (x y : nat) : list nat :=
  if fan_in_fan_out then [y; x] else [x; y].

(** [self.forward_fn]: [self.lora_forward] or [lambda x: x] *)
Inductive forward_kind := LoraForward | IdentityForward.

Inductive cls := LoRAParametrization | LoRAFAParametrization.

Record lora := mkLora {
  fan_in_fan_out : bool;
  lora_alpha : Qc;
  rank : nat;
  lora_A : tensor;
  lora_B : tensor;
  original_weights : option tensor;
  cache_V : bool;
  V : option tensor;
  scaling : Qc;
  lora_dropout_p : Qc;
  lora_dropout_mask : tensor;
  forward_fn : forward_kind;
  A_requires_grad : bool;
  B_requires_grad : bool
}.

Definition set_forward_fn (st : lora) (f : forward_kind) : lora :=
  mkLora (fan_in_fan_out st) (lora_alpha st) (rank st) (lora_A st) (lora_B st)
    (original_weights st) (cache_V st) (V st) (scaling st) (lora_dropout_p st)
    (lora_dropout_mask st) f (A_requires_grad st) (B_requires_grad st).

Definition set_AB (st : lora) (a b : tensor) : lora :=
  mkLora (fan_in_fan_out st) (lora_alpha st) (rank st) a b
    (original_weights st) (cache_V st) (V st) (scaling st) (lora_dropout_p st)
    (lora_dropout_mask st) (forward_fn st) (A_requires_grad st) (B_requires_grad st).

(** [_dropout]: [A * self.lora_dropout(self.lora_dropout_mask)] *)
Definition _dropout (st : lora) (e : env) (a : tensor) : res tensor :=
  mul_bcast a (nn_dropout (lora_dropout_p st) e (lora_dropout_mask st)).

(** [self.dropout_fn]: [_dropout] when [lora_dropout_p > 0], else the identity *)
Definition dropout_fn (st : lora) (e : env) (a : tensor) : res tensor :=
  if Qc_ltb 0 (lora_dropout_p st) then _dropout st e a else Ok a.

(** [lora_forward]:
    X plus the product of [self.swap((lora_B, dropout_fn(lora_A)))],
    viewed as [X.shape] and multiplied by [self.scaling] *)
Definition lora_forward (st : lora) (e : env) (X : tensor) : res tensor :=
  dA <- dropout_fn st e (lora_A st) ;;
  P <- (if fan_in_fan_out st then matmul dA (lora_B st) else matmul (lora_B st) dA) ;;
  W <- view P (shape X) ;;
  tadd X (tscale W (scaling st)).

Definition forward (st : lora) (e : env) (X : tensor) : res tensor :=
  match forward_fn st with
  | LoraForward => lora_forward st e X
  | IdentityForward => Ok X
  end.

Definition disable_lora (st : lora) : lora := set_forward_fn st IdentityForward.
Definition enable_lora (st : lora) : lora := set_forward_fn st LoraForward.

(** the ["svd"] branch of [LoRAParametrization._init_AB]; returns the new
    [lora_A], [lora_B] and the [V] buffer *)
Definition init_AB_svd (r : nat) (ow : option tensor) (cv : bool) (o : oracles)
  : res (tensor * tensor * option tensor) :=
  match ow with
  | None => Err ValueError
  | Some w =>
      usv <- svd o w ;;
      let '(u, s, v) := usv in
      us <- mul_row (slice_cols u r) (slice1 s r) ;;
      Ok (transpose us, slice_cols v r, if cv then Some (slice_cols v r) else None)
  end.

(** [_init_AB] of either class, on the zero-initialised [lora_A], [lora_B] *)
Definition init_AB (c : cls) (init_method : string) (r : nat) (ow : option tensor)
  (cv : bool) (o : oracles) (A B : tensor) : res (tensor * tensor * option tensor) :=
  match c with
  | LoRAParametrization =>
      if String.eqb init_method "kaiming" then Ok (kaiming_uniform_ o A, B, None)
      else if String.eqb init_method "svd" then init_AB_svd r ow cv o
      else Ok (A, B, None)
  | LoRAFAParametrization =>
      if String.eqb init_method "kaiming" then
        let A1 := kaiming_uniform_ o A in
        qrr <- qr o (transpose A1) ;;
        let '(Qm, Rm) := qrr in
        B' <- matmul B Rm ;;
        Ok (transpose Qm, B', None)
      else if String.eqb init_method "svd" then init_AB_svd r ow cv o
      else Ok (A, B, None)
  end.

(** [__init__] of either class (for [LoRAFAParametrization], followed by
    [self.lora_A.requires_grad_(False)]) *)
Definition construct (c : cls) (fan_in fan_out : nat) (fiof : bool) (r : nat)
  (p alpha : Qc) (init_method : string) (ow : option tensor) (cv : bool)
  (o : oracles) : res lora :=
  let A0 := zeros (swap fiof r fan_in) in
  let B0 := zeros (swap fiof fan_out r) in
  abv <- init_AB c init_method r ow cv o A0 B0 ;;
  let '(A, B, Vb) := abv in
  sc <- (if Nat.eqb r 0 then Err ZeroDivisionError else Ok (alpha / Qc_of_nat r)) ;;
  _ <- (if Qc_ltb 0 p && Qc_ltb 1 p then Err ValueError else Ok tt) ;;
  Ok (mkLora fiof alpha r A B ow cv Vb sc p (ones (swap fiof 1 fan_in)) LoraForward
        (match c with LoRAParametrization => true | LoRAFAParametrization => false end)
        true).

Definition default_init_method (c : cls) : string :=
  match c with LoRAParametrization => "kaiming" | LoRAFAParametrization => "svd" end.

(** a construction with every keyword argument left at its default *)
Definition construct_default (c : cls) (fan_in fan_out : nat) (o : oracles) : res lora :=
  construct c fan_in fan_out false 4 0 1 (default_init_method c) None false o.

(** [x - y] elementwise *)
Definition tsub (x y : tensor) : tensor :=
  mkT (shape x) (map (fun '(a, b) => a - b) (combine (data x) (data y))).

(** An optimizer step of the host ([p -= lr * p.grad]): only parameters
    with [requires_grad] receive a gradient and are updated. *)
Definition sgd_step (lr : Qc) (gA gB : tensor) (st : lora) : lora :=
  set_AB st
    (if A_requires_grad st then tsub (lora_A st) (tscale gA lr) else lora_A st)
    (if B_requires_grad st then tsub (lora_B st) (tscale gB lr) else lora_B st).

(** ** Modules, [torch.nn.utils.parametrize] and the traversal helpers *)

(** layer classes a registry can name *)
Inductive ltype := Linear | Conv2d | Embedding | Sequential | LSTM | OtherLayer (name : string).

(** [type(layer)]: [register_parametrization] swaps the class of a layer
    for a generated subclass [Parametrized<cls>], and
    [remove_parametrizations] restores it when no parametrization is left *)
Inductive pytype := Plain (t : ltype) | Parametrized (t : ltype).

Definition ltype_eq_dec (x y : ltype) : {x = y} + {x <> y}.
Proof. decide equality. apply string_dec. Defined.

Definition pytype_eqb (x y : pytype) : bool :=
  match x, y with
  | Plain a, Plain b | Parametrized a, Parametrized b =>
      if ltype_eq_dec a b then true else false
  | _, _ => false
  end.

(** A module: its class, its own parameters, [module.parametrizations]
    (attribute -> the original tensor and the stack of parametrizations,
    in registration order) and its children [module._modules].  The
    containers [parametrize] inserts as children ([ModuleDict],
    [ParametrizationList], the parametrizations themselves) are of classes
    no registry names, so every traversal below passes over them without
    effect; they are not represented. *)
Inductive module :=
| Mod (mtype : ltype) (mparams : list (string * tensor))
      (mpz : list (string * (tensor * list lora))) (mkids : list (string * module)).

Definition mtype (m : module) : ltype := let '(Mod t _ _ _) := m in t.
Definition mparams (m : module) : list (string * tensor) := let '(Mod _ ps _ _) := m in ps.
Definition mpz (m : module) : list (string * (tensor * list lora)) := let '(Mod _ _ pz _) := m in pz.
Definition mkids (m : module) : list (string * module) := let '(Mod _ _ _ ks) := m in ks.

Definition type_of (m : module) : pytype :=
  match mpz m with [] => Plain (mtype m) | _ => Parametrized (mtype m) end.

Fixpoint alookup {A} (k : string) (l : list (string * A)) : option A :=
  match l with
  | [] => None
  | (k', v) :: r => if String.eqb k k' then Some v else alookup k r
  end.

Fixpoint aremove {A} (k : string) (l : list (string * A)) : list (string * A) :=
  match l with
  | [] => []
  | (k', v) :: r => if String.eqb k k' then r else (k', v) :: aremove k r
  end.

Fixpoint aupdate {A} (k : string) (v : A) (l : list (string * A)) : list (string * A) :=
  match l with
  | [] => []
  | (k', v') :: r => if String.eqb k k' then (k', v) :: r else (k', v') :: aupdate k v r
  end.

(** reading [getattr(module, attr)]: a parametrized attribute is the
    original passed through its parametrizations in order *)
Definition read_attr (e : env) (m : module) (attr : string) : res tensor :=
  match alookup attr (mpz m) with
  | Some (orig, stack) => fold_left (fun acc p => x <- acc ;; forward p e x) stack (Ok orig)
  | None =>
      match alookup attr (mparams m) with
      | Some t => Ok t
      | None => Err AttributeError
      end
  end.

(** [parametrize.register_parametrization(module, attr, p)], with its
    check that [p] keeps the shape of the value it receives *)
Definition register_parametrization (e : env) (m : module) (attr : string) (p : lora) : res module :=
  let '(Mod ty ps pz ks) := m in
  match alookup attr pz with
  | Some (orig, stack) =>
      Y <- read_attr e m attr ;;
      X <- forward p e Y ;;
      if list_eq_dec Nat.eq_dec (shape X) (shape Y)
      then Ok (Mod ty ps (aupdate attr (orig, (stack ++ [p])%list) pz) ks)
      else Err ValueError
  | None =>
      match alookup attr ps with
      | Some t =>
          Z <- forward p e t ;;
          if list_eq_dec Nat.eq_dec (shape Z) (shape t)
          then Ok (Mod ty (aremove attr ps) ((pz ++ [(attr, (t, [p]))])%list) ks)
          else Err ValueError
      | None => Err ValueError
      end
  end.

(** [parametrize.remove_parametrizations(module, attr, leave_parametrized)]:
    with [leave_parametrized] the current value is written into the
    original tensor ([original.set_(t)]); the original is registered back
    as a plain parameter and the parametrization stack is dropped *)
Definition remove_parametrizations (e : env) (m : module) (attr : string) (leave : bool) : res module :=
  let '(Mod ty ps pz ks) := m in
  match alookup attr pz with
  | None => Err ValueError
  | Some (orig, _) =>
      orig' <- (if leave then read_attr e m attr else Ok orig) ;;
      Ok (Mod ty ((ps ++ [(attr, orig')])%list) (aremove attr pz) ks)
  end.

(** [for attr_name in layer.parametrizations.keys(): remove_parametrizations(...)].
    The loop iterates a live view of [layer.parametrizations._modules],
    which current torch keeps in a plain [dict].  Each step of a [dict]
    iterator first checks that the dictionary still has the size it had
    when the iteration started and raises [RuntimeError] ("dictionary
    changed size during iteration") if not, also when no key is left to
    visit.  [size0] is that starting size and [ks] the keys not visited
    yet (any change of the dictionary stops the loop at the next step, so
    the keys can be taken up front). *)
Fixpoint remove_all_keys (e : env) (leave : bool) (size0 : nat) (ks : list string) (m : module)
  : res module :=
  if Nat.eqb (length (mpz m)) size0 then
    match ks with
    | [] => Ok m
    | k :: rest =>
        m' <- remove_parametrizations e m k leave ;;
        remove_all_keys e leave size0 rest m'
    end
  else Err RuntimeError.

(** a registry entry's factory: [partial(LoRAParametrization.from_linear, rank=4)]
    and the like, applied to the layer *)
Definition factory := module -> res lora.
Definition lora_config := list (pytype * list (string * factory)).

Fixpoint plookup (t : pytype) (cfg : lora_config) : option (list (string * factory)) :=
  match cfg with
  | [] => None
  | (t', v) :: r => if pytype_eqb t t' then Some v else plookup t r
  end.

(** [apply_lora(layer, register, merge, lora_config)] *)
Definition apply_lora (register merge : bool) (cfg : lora_config) (e : env) (m : module)
  : res module :=
  if register then
    match plookup (type_of m) cfg with
    | Some attrs =>
        fold_left (fun acc '(attr, mk) => l <- acc ;; p <- mk l ;; register_parametrization e l attr p)
          attrs (Ok m)
    | None => Ok m
    end
  else
    match mpz m with
    | [] => Ok m
    | pz => remove_all_keys e merge (length pz) (map fst pz) m
    end.

(** [module.apply(fn)]: the children first, then the module itself *)
Fixpoint mod_apply (fn : module -> res module) (m : module) : res module :=
  let '(Mod ty ps pz ks) := m in
  ks' <- mapM (fun '(n, c) => c' <- mod_apply fn c ;; Ok (n, c')) ks ;;
  fn (Mod ty ps pz ks').

Definition add_lora (cfg : lora_config) (e : env) (m : module) : res module :=
  mod_apply (apply_lora true false cfg e) m.

Definition merge_lora (e : env) (m : module) : res module :=
  mod_apply (apply_lora false true [] e) m.

Definition remove_lora (e : env) (m : module) : res module :=
  mod_apply (apply_lora false false [] e) m.

(** the qualified name [prefix + ('.' if prefix else '') + name] *)
Definition qualify (prefix name : string) : string :=
  if String.eqb prefix "" then name else (prefix ++ "." ++ name)%string.

Fixpoint height (m : module) : nat :=
  let '(Mod _ _ _ ks) := m in S (list_max (map (fun '(_, c) => height c) ks)).

(** [for name, layer in model.named_modules(): ...]: the generator yields a
    module before it reads the module's children, so the body runs on a
    module first and the walk then descends into the children the body left
    there.  The body's calls ([add_lora]) keep the tree's shape, so the
    height of the model bounds the depth of the walk. *)
Fixpoint walk_named (fuel : nat) (visit : string -> module -> res module) (prefix : string)
  (m : module) : res module :=
  match fuel with
  | O => Ok m
  | S f =>
      m1 <- visit prefix m ;;
      let '(Mod ty ps pz ks) := m1 in
      ks' <- mapM (fun '(n, c) => c' <- walk_named f visit (qualify prefix n) c ;; Ok (n, c')) ks ;;
      Ok (Mod ty ps pz ks')
  end.

(** Python's [m in name] on strings *)
Fixpoint is_prefix (f s : string) : bool :=
  match f, s with
  | EmptyString, _ => true
  | String a f', String b s' => Ascii.eqb a b && is_prefix f' s'
  | String _ _, EmptyString => false
  end.

Fixpoint contains (f s : string) : bool :=
  is_prefix f s || match s with EmptyString => false | String _ s' => contains f s' end.

Definition add_lora_by_name (cfg : lora_config) (e : env) (target_module_names : list string)
  (model : module) : res module :=
  walk_named (height model)
    (fun name layer =>
       if existsb (fun m => contains m name) target_module_names then add_lora cfg e layer
       else Ok layer)
    "" model.

Definition add_lora_by_layer_names (e : env) (lora_named_config : list (string * lora_config))
  (model : module) : res module :=
  walk_named (height model)
    (fun name layer =>
       match alookup name lora_named_config with
       | Some cfg => add_lora cfg e layer
       | None => Ok layer
       end)
    "" model.

(** the submodule reached by a path of child names *)
Fixpoint find (path : list string) (m : module) : option module :=
  match path with
  | [] => Some m
  | n :: r => match alookup n (mkids m) with Some c => find r c | None => None end
  end.

(** the qualified names of the modules on a path, the root's [""] first *)
Fixpoint path_names (prefix : string) (path : list string) : list string :=
  prefix :: match path with [] => [] | n :: r => path_names (qualify prefix n) r end.

Fixpoint qualified_name (prefix : string) (path : list string) : string :=
  match path with [] => prefix | n :: r => qualified_name (qualify prefix n) r end.

(** what belongs to a layer itself: its class, parameters and overlays *)
Definition local (m : module) : ltype * list (string * tensor) * list (string * (tensor * list lora)) :=
  (mtype m, mparams m, mpz m).

(** how a model may change under [add_lora] and the name-based walks:
    every submodule is still there with its class, a parametrized one stays
    parametrized, and one whose class satisfies [G] becomes parametrized *)
Definition overlay_mono (G : ltype -> Prop) (m m' : module) : Prop :=
  forall path n, find path m = Some n ->
    exists n', find path m' = Some n' /\ mtype n' = mtype n /\
      ((mpz n <> [] \/ G (mtype n)) -> mpz n' <> []).

(** [LoRAParametrization.from_linear] with the given rank, the other
    keyword arguments at their defaults *)
Definition from_linear (o : oracles) (e : env) (rank : nat) : factory :=
  fun layer =>
    w <- read_attr e layer "weight" ;;
    match shape w with
    | [fan_out; fan_in] =>
        construct LoRAParametrization fan_in fan_out false rank 0 1 "kaiming" None false o
    | _ => Err ValueError
    end.

Definition default_lora_config (o : oracles) (e : env) : lora_config :=
  [(Plain Linear, [("weight", from_linear o e 4)])].

(** ** Concrete inputs used by the witnesses and counterexamples *)

Definition qc (n : Z) : Qc := Q2Qc (inject_Z n).
Definition qfrac (n : Z) (d : positive) : Qc := Q2Qc (Qmake n d).

Definition dummy_lora : lora :=
  mkLora false 0 0 (zeros []) (zeros []) None false None 0 0 (zeros []) IdentityForward true true.

Definition unwrap (r : res lora) : lora :=
  match r with Ok st => st | Err _ => dummy_lora end.

(** the data of a result, as plain rationals, to compare computed values *)
Definition res_qdata (r : res tensor) : option (list nat * list Q) :=
  match r with Ok t => Some (shape t, map this (data t)) | Err _ => None end.

(** kaiming draws all equal to one; the decompositions are not used *)
Definition ones_oracles : oracles :=
  mkOracles (fun _ => 1) (fun _ => Err RuntimeError) (fun _ => Err RuntimeError).

(** dropout in training mode with every unit dropped *)
Definition drop_all : env := mkEnv true (fun _ => false).
Definition eval_env : env := mkEnv false (fun _ => true).

(** a 1x1 layer with dropout probability 1/2 whose [lora_B] has been
    trained away from zero by one optimizer step *)
Definition c1_state : lora :=
  sgd_step 1 (zeros [1%nat; 1%nat]) (mkT [1%nat; 1%nat] [qc (-1)])
    (unwrap (construct LoRAParametrization 1 1 false 1 (qfrac 1 2) 1 "kaiming" None false ones_oracles)).

(** ** The contracts of the delegated decompositions *)

Definition Qc_eqb (x y : Qc) : bool := Qeq_bool (this x) (this y).

Fixpoint list_eqb {A} (eqb : A -> A -> bool) (l l' : list A) : bool :=
  match l, l' with
  | [], [] => true
  | x :: r, x' :: r' => eqb x x' && list_eqb eqb r r'
  | _, _ => false
  end.

Definition teqb (a b : tensor) : bool :=
  list_eqb Nat.eqb (shape a) (shape b) && list_eqb Qc_eqb (data a) (data b).

Definition res_teqb (r : res tensor) (b : tensor) : bool :=
  match r with Ok a => teqb a b | Err _ => false end.

(** the identity matrix [torch.eye(m)] *)
Definition eye (m : nat) : tensor :=
  mk2 m m (fun i j => if Nat.eqb i j then 1 else 0).

(** [t[:r, :]] *)
Definition slice_rows (t : tensor) (r : nat) : tensor :=
  mk2 (Nat.min r (nrows t)) (ncols t) (fun i j => get2 t i j).

Fixpoint nonincreasing_nonneg (l : list Qc) : bool :=
  match l with
  | [] => true
  | x :: r =>
      negb (Qc_ltb x 0) &&
      match r with [] => true | y :: _ => negb (Qc_ltb x y) end &&
      nonincreasing_nonneg r
  end.

(** [u, s, vh = torch.linalg.svd(w)] (full matrices): [u] and [vh] are
    orthogonal, [s] holds the min(m, n) singular values in non-increasing
    order, and [w = u[:, :k] * s @ vh[:k, :]].  The rows of [vh] are the
    right-singular vectors. *)
Definition is_svd (w u s vh : tensor) : bool :=
  let m := nrows w in
  let n := ncols w in
  let k := Nat.min m n in
  is2d w && list_eqb Nat.eqb (shape u) [m; m] && list_eqb Nat.eqb (shape s) [k]
  && Nat.eqb (length (data s)) k && list_eqb Nat.eqb (shape vh) [n; n]
  && res_teqb (matmul (transpose u) u) (eye m)
  && res_teqb (matmul vh (transpose vh)) (eye n)
  && nonincreasing_nonneg (data s)
  && res_teqb (us <- mul_row (slice_cols u k) s ;; matmul us (slice_rows vh k)) w.

Definition upper_triangular (t : tensor) : bool :=
  forallb (fun i => forallb (fun j => Nat.leb i j || Qc_eqb (get2 t i j) 0)
                             (seq 0 (ncols t))) (seq 0 (nrows t)).

(** [q, r = torch.linalg.qr(a)] (reduced): for [a] of shape (m, n) and
    [k = min(m, n)], [q] is (m, k) with orthonormal columns, [r] is (k, n)
    upper triangular and [a = q @ r]. *)
Definition is_qr (a q r : tensor) : bool :=
  let k := Nat.min (nrows a) (ncols a) in
  list_eqb Nat.eqb (shape q) [nrows a; k] && list_eqb Nat.eqb (shape r) [k; ncols a]
  && res_teqb (matmul (transpose q) q) (eye k)
  && upper_triangular r
  && res_teqb (matmul q r) a.

(** the squared Frobenius norm *)
Definition frob2 (t : tensor) : Qc := fold_right (fun a acc => a * a + acc) 0 (data t).

Definition res_holds {A} (P : A -> Prop) (r : res A) : Prop :=
  match r with Ok a => P a | Err _ => False end.

(** [B @ A] right after construction *)
Definition initial_product (st : res lora) : res tensor :=
  s <- st ;; matmul (lora_B s) (lora_A s).

(** a 3x3 weight with distinct singular values 3, 2, 1 whose SVDs are
    [u = diag(e)], [s = (3, 2, 1)], [vh = diag(e) @ P] for the cyclic
    permutation P and any signs e (distinct singular values fix the
    singular vectors up to these signs) *)
Definition W3 : tensor := mkT [3%nat; 3%nat] (map qc [0; 3; 0; 0; 0; 2; 1; 0; 0]%Z).

Definition sgn (b : bool) : Qc := if b then 1 else qc (-1).

Definition svd_W3 (e1 e2 e3 : bool) : tensor * tensor * tensor :=
  (mkT [3%nat; 3%nat] [sgn e1; 0; 0; 0; sgn e2; 0; 0; 0; sgn e3],
   mkT [3%nat] (map qc [3; 2; 1]%Z),
   mkT [3%nat; 3%nat] [0; sgn e1; 0; 0; 0; sgn e2; sgn e3; 0; 0]).

Definition svd_oracles (w : tensor) (usv : tensor * tensor * tensor) : oracles :=
  mkOracles (fun _ => 1)
    (fun x => if teqb x w then Ok usv else Err RuntimeError)
    (fun _ => Err RuntimeError).

(** a 3x2 weight (fan_out 3, fan_in 2) and its SVD *)
Definition W32 : tensor := mkT [3%nat; 2%nat] (map qc [1; 0; 0; 1; 0; 0]%Z).

Definition svd_W32 : tensor * tensor * tensor :=
  (eye 3, mkT [2%nat] [1; 1], eye 2).

(** the reduced QR of the 1x2 matrix [[1, 1]] *)
Definition qr_oracles : oracles :=
  mkOracles (fun _ => 1) (fun _ => Err RuntimeError)
    (fun a => if teqb a (mkT [1%nat; 2%nat] [1; 1]) then Ok (mkT [1%nat; 1%nat] [1], mkT [1%nat; 2%nat] [1; 1])
              else Err RuntimeError).

(** kaiming draws (3, 4) and the reduced QR of their column [[3], [4]] *)
Definition qr34_oracles : oracles :=
  mkOracles (fun i => if Nat.eqb i 0 then qc 3 else qc 4) (fun _ => Err RuntimeError)
    (fun a => if teqb a (mkT [2%nat; 1%nat] [qc 3; qc 4])
              then Ok (mkT [2%nat; 1%nat] [qfrac 3 5; qfrac 4 5], mkT [1%nat; 1%nat] [qc 5])
              else Err RuntimeError).

(** kaiming draws of a (2, 3) [lora_A] whose transpose has the orthogonal
    columns (1, 2, 2) and (2, 1, -2), and its reduced QR: [Q] their
    normalisation, [R = diag(3, 3)] *)
Definition qr122_oracles : oracles :=
  mkOracles (fun i => nth i [qc 1; qc 2; qc 2; qc 2; qc 1; qc (-2)] 0) (fun _ => Err RuntimeError)
    (fun a => if teqb a (mkT [3%nat; 2%nat] [qc 1; qc 2; qc 2; qc 1; qc 2; qc (-2)])
              then Ok (mkT [3%nat; 2%nat] [qfrac 1 3; qfrac 2 3; qfrac 2 3; qfrac 1 3; qfrac 2 3; qfrac (-2) 3],
                       mkT [2%nat; 2%nat] [qc 3; 0; 0; qc 3])
              else Err RuntimeError).

(** what may happen to a constructed parametrization: optimizer steps, the
    toggles and forward evaluations (which leave the state alone) *)
Inductive op :=
| OpStep (lr : Qc) (gA gB : tensor)
| OpEnable
| OpDisable
| OpForward (e : env) (X : tensor).

Definition run_op (o : op) (st : lora) : lora :=
  match o with
  | OpStep lr gA gB => sgd_step lr gA gB st
  | OpEnable => enable_lora st
  | OpDisable => disable_lora st
  | OpForward _ _ => st
  end.

Definition run (ops : list op) (st : lora) : lora := fold_left (fun s o => run_op o s) ops st.

(** [nn.Linear(2, 2)] with both [weight] and [bias]; the registry overlays
    both, the bias with a 1x2 product viewed as the bias' shape *)
Definition lin22 : module := Mod Linear [("weight", ones [2; 2]); ("bias", ones [2])]%nat [] [].

Definition two_attr_config (o : oracles) (e : env) : lora_config :=
  [(Plain Linear,
    [("weight", from_linear o e 1);
     ("bias", fun _ => construct LoRAParametrization 2 1 false 1 0 1 "kaiming" None false o)])]%nat.

(** [nn.Sequential(OrderedDict(enc=nn.Sequential(nn.Linear(2, 2))))] *)
Definition enc_model : module :=
  Mod Sequential [] [] [("enc", Mod Sequential [] [] [("0", Mod Linear [("weight", ones [2; 2])]%nat [] [])])].


(** the names of the overlaid attributes of the submodule at a path of a result *)
Definition overlay_attrs_at (path : list string) (r : res module) : option (list string) :=
  match r with
  | Ok m => option_map (fun n => map fst (mpz n)) (find path m)
  | Err _ => None
  end.


(** ** The remaining classmethods and well-formedness of layers *)

(** [weight.view(weight.shape[0], -1)]: the [-1] is inferred from the
    element count, which fails for a leading dimension of 0 or one that does
    not divide it *)
Definition view_rows (t : tensor) : res tensor :=
  match shape t with
  | [] => Err IndexError
  | s0 :: _ =>
      if Nat.eqb s0 0 then Err RuntimeError
      else if Nat.eqb (Nat.modulo (numel (shape t)) s0) 0
      then view t [s0; Nat.div (numel (shape t)) s0]
      else Err RuntimeError
  end.

(** [cls.from_linear(layer, rank, lora_dropout_p, lora_alpha, init_method,
    original_weights, cache_V)] *)
Definition cls_from_linear (c : cls) (o : oracles) (e : env) (rank : nat) (p alpha : Qc)
  (init_method : string) (ow : option tensor) (cv : bool) : factory :=
  fun layer =>
    w <- read_attr e layer "weight" ;;
    match shape w with
    | [fan_out; fan_in] => construct c fan_in fan_out false rank p alpha init_method ow cv o
    | _ => Err ValueError
    end.

(** [cls.from_conv2d(layer, rank, lora_dropout_p, lora_alpha)]: the class's
    own default init method, no [original_weights] *)
Definition cls_from_conv2d (c : cls) (o : oracles) (e : env) (rank : nat) (p alpha : Qc)
  : factory :=
  fun layer =>
    w <- read_attr e layer "weight" ;;
    w2 <- view_rows w ;;
    match shape w2 with
    | [fan_out; fan_in] =>
        construct c fan_in fan_out false rank p alpha (default_init_method c) None false o
    | _ => Err ValueError
    end.

(** [cls.from_embedding(layer, rank, lora_dropout_p, lora_alpha)]: the
    weight of an embedding is (num_embeddings, embedding_dim), taken as
    (fan_in, fan_out) with [fan_in_fan_out=True] *)
Definition cls_from_embedding (c : cls) (o : oracles) (e : env) (rank : nat) (p alpha : Qc)
  : factory :=
  fun layer =>
    w <- read_attr e layer "weight" ;;
    match shape w with
    | [fan_in; fan_out] =>
        construct c fan_in fan_out true rank p alpha (default_init_method c) None false o
    | _ => Err ValueError
    end.

(** a tensor whose data fills its shape *)
Definition tensor_wf (t : tensor) : Prop := length (data t) = numel (shape t).

(** the dictionaries of a layer have unique keys, and a parametrized
    attribute is no longer a plain parameter *)
Definition layer_wf (m : module) : Prop :=
  NoDup (map fst (mparams m)) /\ NoDup (map fst (mpz m)) /\
  (forall k, In k (map fst (mpz m)) -> ~ In k (map fst (mparams m))).

(** a property of every module of a tree *)
Fixpoint all_nodes (P : module -> bool) (m : module) : bool :=
  let '(Mod ty ps pz ks) := m in
  P (Mod ty ps pz ks) && forallb (fun '(_, c) => all_nodes P c) ks.


(** a plain [nn.Linear] as [from_linear] needs it: a two-dimensional weight *)
Definition linear_ready (m : module) : bool :=
  match type_of m with
  | Plain Linear =>
      match alookup "weight" (mparams m) with
      | Some w =>
          match shape w with
          | [_; _] => Nat.eqb (length (data w)) (numel (shape w))
          | _ => false
          end
      | None => false
      end
  | _ => true
  end.

(** induction over the module tree, children first *)
Fixpoint module_ind' (P : module -> Prop)
  (f : forall ty ps pz ks, Forall (fun kc => P (snd kc)) ks -> P (Mod ty ps pz ks))
  (m : module) {struct m} : P m :=
  match m with
  | Mod ty ps pz ks =>
      f ty ps pz ks
        ((fix goL (l : list (string * module)) : Forall (fun kc => P (snd kc)) l :=
            match l with
            | [] => Forall_nil _
            | (n, c) :: r => Forall_cons (n, c) (module_ind' P f c) (goL r)
            end) ks)
  end.

(** [layer_wf] as a check *)
Fixpoint nodupb (l : list string) : bool :=
  match l with
  | [] => true
  | x :: r => negb (existsb (String.eqb x) r) && nodupb r
  end.

Definition layer_wfb (m : module) : bool :=
  nodupb (map fst (mparams m)) && nodupb (map fst (mpz m)) &&
  forallb (fun k => negb (existsb (String.eqb k) (map fst (mparams m)))) (map fst (mpz m)).

(** a kaiming-initialised overlay of rank 1 for a 2x2 weight *)
Definition lora22 : lora :=
  unwrap (construct LoRAParametrization 2 2 false 1 0 1 "kaiming" None false ones_oracles).

(** [nn.Embedding(3, 2)] *)
Definition emb32 : module :=
  Mod Embedding [("weight", mkT [3; 2]%nat (map qc [1; 2; 3; 4; 5; 6]%Z))] [] [].

(** [nn.Conv2d(1, 2, kernel_size=(1, 2))] without bias *)
Definition conv2x1x1x2 : module :=
  Mod Conv2d [("weight", mkT [2; 1; 1; 2]%nat (map qc [1; 2; 3; 4]%Z))] [] [].

(** the overlay of the bias of [two_attr_config] *)
Definition lora_bias2 : lora :=
  unwrap (construct LoRAParametrization 2 1 false 1 0 1 "kaiming" None false ones_oracles).

(** a linear layer whose [weight] and [bias] are both parametrized *)
Definition lin22_two_overlays : module :=
  Mod Linear [] [("weight", (ones [2; 2]%nat, [lora22])); ("bias", (ones [2]%nat, [lora_bias2]))] [].

(** a linear layer whose [weight] alone is parametrized *)
Definition m1_single : module :=
  Mod Linear [("bias", ones [2]%nat)] [("weight", (ones [2; 2]%nat, [lora22]))] [].

(** * Proofs *)

(** ** Tensor lemmas *)

Lemma nth_map_seq {A} (f : nat -> A) (n i : nat) (d : A) :
  (i < n)%nat -> nth i (map f (seq 0 n)) d = f i.
Proof.
  intros Hi.
  rewrite nth_indep with (d' := f 0%nat) by (rewrite length_map, length_seq; exact Hi).
  rewrite map_nth, seq_nth by exact Hi. reflexivity.
Qed.

Lemma divmod_pair (i j n : nat) :
  (j < n)%nat -> Nat.div (i * n + j) n = i /\ Nat.modulo (i * n + j) n = j.
Proof.
  intros Hj. assert (n <> 0%nat) by lia. split.
  - rewrite Nat.div_add_l by assumption. rewrite Nat.div_small by exact Hj. lia.
  - rewrite Nat.add_comm, Nat.Div0.mod_add. apply Nat.mod_small, Hj.
Qed.

Lemma get2_mk2 (m n : nat) (f : nat -> nat -> Qc) (i j : nat) :
  (i < m)%nat -> (j < n)%nat -> get2 (mk2 m n f) i j = f i j.
Proof.
  intros Hi Hj. unfold get2, mk2, ncols; simpl.
  rewrite nth_map_seq by nia.
  destruct (divmod_pair i j n Hj) as [-> ->]. reflexivity.
Qed.

Lemma mk2_ext (m n : nat) (f g : nat -> nat -> Qc) :
  (forall i j, (i < m)%nat -> (j < n)%nat -> f i j = g i j) ->
  mk2 m n f = mk2 m n g.
Proof.
  intros H. unfold mk2. f_equal. apply map_ext_in. intros p Hp.
  apply in_seq in Hp. destruct Hp as [_ Hp].
  assert (n <> 0%nat) by (intros ->; lia).
  apply H.
  - apply Nat.Div0.div_lt_upper_bound. lia.
  - apply Nat.mod_upper_bound. assumption.
Qed.

Lemma get2_zeros (sh : list nat) (i j : nat) : get2 (zeros sh) i j = 0.
Proof. unfold get2, zeros; simpl. apply nth_repeat. Qed.

Lemma sumk_zero (k : nat) (f : nat -> Qc) :
  (forall x, f x = 0) -> sumk k f = 0.
Proof.
  intros H. induction k as [|k IH]; simpl; [reflexivity|].
  rewrite IH, H. reflexivity.
Qed.

Lemma mk2_zero (m n : nat) : mk2 m n (fun _ _ => 0) = zeros [m; n].
Proof.
  unfold mk2, zeros; simpl. rewrite map_const, length_seq, Nat.mul_1_r. reflexivity.
Qed.

Lemma matmul_zeros_l (b : tensor) (m : nat) :
  is2d b = true -> matmul (zeros [m; nrows b]) b = Ok (zeros [m; ncols b]).
Proof.
  intros Hb. unfold matmul. simpl. rewrite Hb, Nat.eqb_refl. simpl.
  f_equal. unfold nrows at 1; simpl.
  transitivity (mk2 m (ncols b) (fun _ _ => 0)); [|apply mk2_zero]. apply mk2_ext. intros i j _ _.
  apply sumk_zero. intros x. rewrite get2_zeros. apply Qcmult_0_l.
Qed.

Lemma matmul_zeros_r (a : tensor) (n : nat) :
  is2d a = true -> matmul a (zeros [ncols a; n]) = Ok (zeros [nrows a; n]).
Proof.
  intros Ha. unfold matmul. simpl. rewrite Ha, Nat.eqb_refl. simpl.
  f_equal. unfold ncols at 2; simpl.
  transitivity (mk2 (nrows a) n (fun _ _ => 0)); [|apply mk2_zero]. apply mk2_ext. intros i j _ _.
  apply sumk_zero. intros x. rewrite get2_zeros. apply Qcmult_0_r.
Qed.

Lemma bdim_refl (x : nat) : bdim x x = Some x.
Proof. unfold bdim. rewrite Nat.eqb_refl. reflexivity. Qed.

Lemma bdim_one (x : nat) : bdim x 1 = Some x.
Proof. unfold bdim. destruct (Nat.eqb x 1) eqn:E; [apply Nat.eqb_eq in E; subst|]; reflexivity. Qed.

Lemma mul_bcast_shape (t u : tensor) (m n : nat) :
  shape t = [m; n] -> bdim m (nrows u) = Some m -> bdim n (ncols u) = Some n ->
  exists d, mul_bcast t u = Ok d /\ shape d = [m; n].
Proof.
  intros Ht Hm Hn. unfold mul_bcast.
  replace (nrows t) with m by (unfold nrows; rewrite Ht; reflexivity).
  replace (ncols t) with n by (unfold ncols; rewrite Ht; reflexivity).
  rewrite Hm, Hn. eexists. split; reflexivity.
Qed.

Lemma nn_dropout_shape (p : Qc) (e : env) (x : tensor) :
  shape (nn_dropout p e x) = shape x.
Proof. unfold nn_dropout. destruct (training e); reflexivity. Qed.

(** on a state whose [lora_A] and dropout mask have the shapes [__init__]
    gives them, [dropout_fn] succeeds and keeps the shape of [lora_A] *)
Lemma dropout_fn_shape (st : lora) (e : env) (r fan_in : nat) :
  shape (lora_A st) = swap (fan_in_fan_out st) r fan_in ->
  shape (lora_dropout_mask st) = swap (fan_in_fan_out st) 1 fan_in ->
  exists d, dropout_fn st e (lora_A st) = Ok d /\ shape d = shape (lora_A st).
Proof.
  intros HA Hm. unfold dropout_fn.
  destruct (Qc_ltb 0 (lora_dropout_p st)); [|eexists; split; reflexivity].
  unfold _dropout. rewrite HA.
  unfold swap in HA, Hm; destruct (fan_in_fan_out st); simpl; apply mul_bcast_shape; auto;
    unfold nrows, ncols; rewrite nn_dropout_shape, Hm; simpl;
    (apply bdim_refl || apply bdim_one).
Qed.

Lemma tadd_zero (X : tensor) (s : Qc) :
  length (data X) = numel (shape X) ->
  tadd X (tscale (mkT (shape X) (repeat 0 (numel (shape X)))) s) = Ok X.
Proof.
  intros HX. unfold tadd, tscale; simpl.
  destruct (list_eq_dec Nat.eq_dec (shape X) (shape X)) as [_|C]; [|congruence].
  destruct X as [sh d]; simpl in *. f_equal. f_equal. rewrite <- HX. clear HX.
  induction d as [|a d IH]; simpl; [reflexivity|].
  rewrite IH, Qcmult_0_l, Qcplus_0_r. reflexivity.
Qed.

Lemma view_zeros (sh sh' : list nat) :
  numel sh = numel sh' -> view (zeros sh') sh = Ok (mkT sh (repeat 0 (numel sh))).
Proof.
  intros H. unfold view, zeros; simpl. rewrite repeat_length, H, Nat.eqb_refl. reflexivity.
Qed.

Lemma is2d_swap (b : bool) (x y : nat) (t : tensor) :
  shape t = swap b x y -> is2d t = true.
Proof. intros H. unfold is2d. rewrite H. destruct b; reflexivity. Qed.

(** ** C2: the kaiming initialisation leaves the correction at zero *)

(** C2. Constructing a [LoRAParametrization] with init method ["kaiming"]
    leaves [lora_B] all-zero, so that right after construction [forward]
    returns every input of the parameter's size unchanged, whatever the
    layout, rank, dropout probability, kaiming draws and dropout draws. *)
Theorem kaiming_init_zero_correction (fan_in fan_out : nat) (fiof : bool) (r : nat)
  (p alpha : Qc) (ow : option tensor) (cv : bool) (o : oracles) (st : lora) :
  construct LoRAParametrization fan_in fan_out fiof r p alpha "kaiming" ow cv o = Ok st ->
  lora_B st = zeros (swap fiof fan_out r) /\
  forall (e : env) (X : tensor),
    length (data X) = numel (shape X) -> numel (shape X) = (fan_out * fan_in)%nat ->
    forward st e X = Ok X.
Proof.
  intros H. unfold construct in H. simpl in H.
  destruct (Nat.eqb r 0); simpl in H; [discriminate|].
  destruct (Qc_ltb 0 p && Qc_ltb 1 p); simpl in H; [discriminate|].
  injection H as <-. split; [reflexivity|].
  intros e X HX Hn. unfold forward; simpl.
  destruct (dropout_fn_shape
              (mkLora fiof alpha r (kaiming_uniform_ o (zeros (swap fiof r fan_in)))
                 (zeros (swap fiof fan_out r)) ow cv None (alpha / Qc_of_nat r) p
                 (ones (swap fiof 1 fan_in)) LoraForward true true) e r fan_in
              eq_refl eq_refl) as [d [Hd Hsd]].
  unfold lora_forward. rewrite Hd. simpl in Hsd |- *.
  assert (H2 : is2d d = true) by (apply (is2d_swap fiof r fan_in); exact Hsd).
  destruct fiof; simpl.
  - replace (zeros [r; fan_out]) with (zeros [ncols d; fan_out])
      by (unfold ncols; rewrite Hsd; reflexivity).
    rewrite matmul_zeros_r by exact H2. simpl.
    rewrite view_zeros by (rewrite Hn; unfold nrows; rewrite Hsd; simpl; lia).
    apply tadd_zero, HX.
  - replace (zeros [fan_out; r]) with (zeros [fan_out; nrows d])
      by (unfold nrows; rewrite Hsd; reflexivity).
    rewrite matmul_zeros_l by exact H2. simpl.
    rewrite view_zeros by (rewrite Hn; unfold ncols; rewrite Hsd; simpl; lia).
    apply tadd_zero, HX.
Qed.

Lemma mk2_get2 (t : tensor) (m n : nat) :
  shape t = [m; n] -> length (data t) = (m * n)%nat -> mk2 m n (get2 t) = t.
Proof.
  intros Hs Hl. destruct t as [sh d]; simpl in *. subst sh. unfold mk2. f_equal.
  apply nth_ext with (d := 0) (d' := 0).
  - rewrite length_map, length_seq. lia.
  - intros k Hk. rewrite length_map, length_seq in Hk.
    rewrite nth_map_seq by exact Hk. unfold get2, ncols; simpl.
    assert (n <> 0%nat) by (intros ->; lia).
    rewrite (Nat.div_mod_eq k n) at 3. f_equal. lia.
Qed.

Lemma get2_ones (sh : list nat) (i j : nat) :
  (i * ncols (ones sh) + j < numel sh)%nat -> get2 (ones sh) i j = 1.
Proof. intros H. unfold get2. simpl. apply nth_repeat_lt, H. Qed.

(** with dropout inactive ([lora_dropout_p <= 0], or eval mode with the
    all-ones mask [__init__] creates) [dropout_fn] returns [lora_A] itself *)
Lemma dropout_fn_inactive (st : lora) (e : env) (m n : nat) :
  shape (lora_A st) = swap (fan_in_fan_out st) m n ->
  length (data (lora_A st)) = (m * n)%nat ->
  (Qc_ltb 0 (lora_dropout_p st) = false \/
   (training e = false /\ lora_dropout_mask st = ones (swap (fan_in_fan_out st) 1 n))) ->
  dropout_fn st e (lora_A st) = Ok (lora_A st).
Proof.
  intros Hs Hl Hd. unfold dropout_fn.
  destruct (Qc_ltb 0 (lora_dropout_p st)); [|reflexivity].
  destruct Hd as [Hd|[He Hm]]; [discriminate|].
  unfold _dropout, nn_dropout. rewrite He, Hm.
  unfold mul_bcast, nrows, ncols. rewrite Hs.
  unfold swap in Hs |- *. destruct (fan_in_fan_out st); simpl.
  - rewrite bdim_refl, bdim_one. f_equal.
    transitivity (mk2 n m (get2 (lora_A st))); [|apply mk2_get2; [exact Hs|lia]].
    apply mk2_ext. intros i j Hi Hj.
    unfold bidx. destruct (Nat.eqb n 1) eqn:En; destruct (Nat.eqb m 1) eqn:Em;
      try (apply Nat.eqb_eq in En); try (apply Nat.eqb_eq in Em);
      rewrite get2_ones by (unfold ncols; simpl; nia);
      rewrite Qcmult_1_r; f_equal; lia.
  - rewrite bdim_one, bdim_refl. f_equal.
    transitivity (mk2 m n (get2 (lora_A st))); [|apply mk2_get2; [exact Hs|lia]].
    apply mk2_ext. intros i j Hi Hj.
    unfold bidx. destruct (Nat.eqb n 1) eqn:En; destruct (Nat.eqb m 1) eqn:Em;
      try (apply Nat.eqb_eq in En); try (apply Nat.eqb_eq in Em);
      rewrite get2_ones by (unfold ncols; simpl; nia);
      rewrite Qcmult_1_r; f_equal; lia.
Qed.

(** C2 witness: a 3x2 layer of rank 1 with dropout 1/2, in training mode. *)
Lemma kaiming_init_zero_correction_witness :
  lora_B (unwrap (construct LoRAParametrization 2 3 false 1 (qfrac 1 2) 1 "kaiming" None false ones_oracles))
    = zeros [3%nat; 1%nat] /\
  forward (unwrap (construct LoRAParametrization 2 3 false 1 (qfrac 1 2) 1 "kaiming" None false ones_oracles))
    drop_all (mkT [3%nat; 2%nat] (map qc [1; 2; 3; 4; 5; 6]%Z))
    = Ok (mkT [3%nat; 2%nat] (map qc [1; 2; 3; 4; 5; 6]%Z)).
Proof.
  destruct (kaiming_init_zero_correction 2 3 false 1 (qfrac 1 2) 1 None false ones_oracles
              (unwrap (construct LoRAParametrization 2 3 false 1 (qfrac 1 2) 1 "kaiming" None false ones_oracles)))
    as [HB HF].
  - vm_compute. reflexivity.
  - split; [exact HB|]. apply HF; vm_compute; reflexivity.
Defined.

(** ** C1: forward, enable_lora and disable_lora *)

(** C1 (as corrected). After [disable_lora], [forward] returns its input
    unchanged whatever the factors; after [enable_lora] it is
    [lora_forward]: X plus [scaling] times the product of the swapped pair
    [(lora_B, dropout_fn(lora_A))] viewed as X's shape.  When dropout is
    inactive ([lora_dropout_p <= 0], or eval mode with the all-ones mask) the
    product is [lora_B @ lora_A], or [lora_A @ lora_B] when
    [fan_in_fan_out].  Neither toggle touches the factors or the scaling. *)
Theorem forward_enable_disable (st : lora) (e : env) (X : tensor) (m n : nat) :
  forward (disable_lora st) e X = Ok X /\
  forward (enable_lora st) e X =
    (dA <- dropout_fn st e (lora_A st) ;;
     P <- (if fan_in_fan_out st then matmul dA (lora_B st) else matmul (lora_B st) dA) ;;
     W <- view P (shape X) ;;
     tadd X (tscale W (scaling st))) /\
  (shape (lora_A st) = swap (fan_in_fan_out st) m n ->
   length (data (lora_A st)) = (m * n)%nat ->
   (Qc_ltb 0 (lora_dropout_p st) = false \/
    (training e = false /\ lora_dropout_mask st = ones (swap (fan_in_fan_out st) 1 n))) ->
   forward (enable_lora st) e X =
     (P <- (if fan_in_fan_out st then matmul (lora_A st) (lora_B st)
            else matmul (lora_B st) (lora_A st)) ;;
      W <- view P (shape X) ;;
      tadd X (tscale W (scaling st)))) /\
  lora_A (disable_lora st) = lora_A st /\ lora_B (disable_lora st) = lora_B st /\
  lora_A (enable_lora st) = lora_A st /\ lora_B (enable_lora st) = lora_B st /\
  scaling (enable_lora st) = scaling st /\ scaling (disable_lora st) = scaling st.
Proof.
  repeat split.
  intros Hs Hl Hd. unfold forward, enable_lora; simpl. unfold lora_forward.
  replace (dropout_fn (set_forward_fn st LoraForward) e (lora_A (set_forward_fn st LoraForward)))
    with (dropout_fn st e (lora_A st)) by reflexivity.
  rewrite (dropout_fn_inactive st e m n Hs Hl Hd). reflexivity.
Qed.

(** C1 witness: the trained 1x1 layer of [c1_state], in eval mode. *)
Lemma forward_enable_disable_witness :
  forward (enable_lora c1_state) eval_env (mkT [1%nat; 1%nat] [qc 5]) =
    (P <- matmul (lora_B c1_state) (lora_A c1_state) ;;
     W <- view P [1%nat; 1%nat] ;;
     tadd (mkT [1%nat; 1%nat] [qc 5]) (tscale W (scaling c1_state))).
Proof.
  destruct (forward_enable_disable c1_state eval_env (mkT [1%nat; 1%nat] [qc 5]) 1 1)
    as [_ [_ [H _]]].
  apply H.
  - vm_compute. reflexivity.
  - vm_compute. reflexivity.
  - right. split; vm_compute; reflexivity.
Defined.

(** C1 counterexample: with dropout active (p = 1/2, training mode, every
    unit of the mask dropped), the enabled [forward] of the trained layer is
    not X + scaling * (B @ A). *)
Lemma forward_claim_counterexample :
  ~ (forall (st : lora) (e : env) (X : tensor),
       forward_fn st = LoraForward ->
       forward st e X =
         (P <- matmul (lora_B st) (lora_A st) ;;
          W <- view P (shape X) ;;
          tadd X (tscale W (scaling st)))).
Proof.
  intros H.
  specialize (H c1_state drop_all (mkT [1%nat; 1%nat] [qc 0]) eq_refl).
  apply (f_equal res_qdata) in H. vm_compute in H. discriminate H.
Qed.

(** ** C10: the default init method of the frozen-A variant *)

(** C10. [LoRAFAParametrization] defaults [init_method] to ["svd"]: a
    construction leaving every keyword argument at its default (so without
    [original_weights]) raises [ValueError] for every shape, while the base
    class, defaulting to ["kaiming"], constructs successfully. *)
Theorem fa_default_construction_fails (fan_in fan_out : nat) (o : oracles) :
  construct_default LoRAFAParametrization fan_in fan_out o = Err ValueError /\
  exists st, construct_default LoRAParametrization fan_in fan_out o = Ok st.
Proof.
  split.
  - reflexivity.
  - eexists. reflexivity.
Qed.

(** ** C3, C4: the factors the ["svd"] initialisation produces *)

(** C3 (code defect). For the weight [W3] and every SVD of it, the ["svd"]
    initialisation with rank 1 sets [lora_A] to the first left-singular
    vector scaled by its singular value, as a (rank, n) row, but [lora_B] to
    the first column of [vh] ([v[:, :rank]] with torch's third output,
    which is V transposed) and not to the first right-singular vector, the
    first column of V. *)
Theorem svd_init_B_not_right_singular (e1 e2 e3 : bool) :
  let '(u, s, vh) := svd_W3 e1 e2 e3 in
  is_svd W3 u s vh = true /\
  res_holds
    (fun st =>
       teqb (lora_A st) (mk2 1 3 (fun i j => nth i (data s) 0 * get2 u j i)) = true /\
       teqb (lora_B st) (slice_cols vh 1) = true /\
       teqb (lora_B st) (mk2 3 1 (fun i j => get2 vh j i)) = false)
    (construct LoRAParametrization 3 3 false 1 0 1 "svd" (Some W3) false
       (svd_oracles W3 (svd_W3 e1 e2 e3))).
Proof.
  destruct e1, e2, e3; vm_compute; repeat split; reflexivity.
Qed.

(** C4 (code defect). For the full-rank weight [W3] and every SVD of it,
    the ["svd"] initialisation with rank 3 (the full rank) gives factors
    whose product [B @ A] is [vh @ diag(s) @ u.T], which misses [W3] by a
    relative Frobenius error above 1e-4. *)
Theorem svd_init_product_differs (e1 e2 e3 : bool) :
  let '(u, s, vh) := svd_W3 e1 e2 e3 in
  is_svd W3 u s vh = true /\
  res_holds
    (fun M => Qc_ltb (qfrac 1 100000000 * frob2 W3) (frob2 (tsub M W3)) = true)
    (initial_product
       (construct LoRAParametrization 3 3 false 3 0 1 "svd" (Some W3) false
          (svd_oracles W3 (svd_W3 e1 e2 e3)))).
Proof.
  destruct e1, e2, e3; vm_compute; split; reflexivity.
Qed.

(** ** C8: the ["svd"] initialisation needs the original weights *)

Lemma ncols_mk2 (m n : nat) (f : nat -> nat -> Qc) : ncols (mk2 m n f) = n.
Proof. reflexivity. Qed.

(** C8 (as corrected). With init method ["svd"] and no [original_weights],
    either class raises [ValueError] during construction.  With
    [original_weights] supplied, construction succeeds when torch's SVD
    returns factors of its documented shapes, [1 <= rank <= min(m, n)] and
    the dropout probability is at most 1. *)
Theorem svd_init_requires_weights (c : cls) (fan_in fan_out : nat) (fiof : bool) (r : nat)
  (p alpha : Qc) (cv : bool) (o : oracles) :
  construct c fan_in fan_out fiof r p alpha "svd" None cv o = Err ValueError /\
  forall (w u s vh : tensor) (m n : nat),
    shape w = [m; n] -> svd o w = Ok (u, s, vh) ->
    shape u = [m; m] -> length (data s) = Nat.min m n ->
    (1 <= r <= Nat.min m n)%nat -> Qc_ltb 1 p = false ->
    exists st, construct c fan_in fan_out fiof r p alpha "svd" (Some w) cv o = Ok st.
Proof.
  split.
  - destruct c; reflexivity.
  - intros w u s vh m n _ Hsvd Hu Hs Hr Hp.
    assert (Hi : exists abv, init_AB_svd r (Some w) cv o = Ok abv).
    { unfold init_AB_svd. rewrite Hsvd. simpl. unfold mul_row.
      replace (ncols (slice_cols u r)) with r
        by (unfold slice_cols; rewrite ncols_mk2; unfold ncols; rewrite Hu; simpl; lia).
      replace (length (data (slice1 s r))) with r
        by (unfold slice1; simpl; rewrite length_firstn, Hs; lia).
      rewrite bdim_refl. eexists. reflexivity. }
    destruct Hi as [[[A B] Vb] Hi].
    assert (Hr0 : Nat.eqb r 0 = false) by (apply Nat.eqb_neq; lia).
    destruct c; unfold construct, init_AB; simpl String.eqb; cbv iota;
      rewrite Hi; simpl; rewrite Hr0; simpl; rewrite Hp, andb_false_r;
      eexists; reflexivity.
Qed.

(** C8 witness: [W3] with rank 2, supplied to the base class. *)
Lemma svd_init_requires_weights_witness :
  construct LoRAParametrization 3 3 false 2 0 1 "svd" None false
    (svd_oracles W3 (svd_W3 true true true)) = Err ValueError /\
  exists st, construct LoRAParametrization 3 3 false 2 0 1 "svd" (Some W3) false
               (svd_oracles W3 (svd_W3 true true true)) = Ok st.
Proof.
  destruct (svd_init_requires_weights LoRAParametrization 3 3 false 2 0 1 false
              (svd_oracles W3 (svd_W3 true true true))) as [H1 H2].
  split; [exact H1|].
  apply (H2 W3 (fst (fst (svd_W3 true true true))) (snd (fst (svd_W3 true true true)))
            (snd (svd_W3 true true true)) 3%nat 3%nat); vm_compute; (reflexivity || lia).
Defined.

(** C8 counterexample: the 3x2 weight [W32] with a valid SVD is supplied,
    yet with rank 3 construction fails: [u[:, :3] * s[:3]] broadcasts a
    (3, 3) matrix against the two singular values. *)
Lemma svd_init_supplied_weights_counterexample :
  is_svd W32 (fst (fst svd_W32)) (snd (fst svd_W32)) (snd svd_W32) = true /\
  construct LoRAParametrization 2 3 false 3 0 1 "svd" (Some W32) false
    (svd_oracles W32 svd_W32) = Err RuntimeError.
Proof. split; vm_compute; reflexivity. Qed.

(** ** C5: the frozen-A variant *)

Lemma sumk_ext (k : nat) (f g : nat -> Qc) :
  (forall x, (x < k)%nat -> f x = g x) -> sumk k f = sumk k g.
Proof.
  intros H. induction k as [|k IH]; simpl; [reflexivity|].
  rewrite IH by (intros; apply H; lia). rewrite H by lia. reflexivity.
Qed.

Lemma run_preserves_frozen_A (ops : list op) (st : lora) :
  A_requires_grad st = false ->
  lora_A (run ops st) = lora_A st /\ A_requires_grad (run ops st) = false.
Proof.
  unfold run. revert st. induction ops as [|o ops IH]; intros st H; simpl; [auto|].
  assert (Ho : lora_A (run_op o st) = lora_A st /\ A_requires_grad (run_op o st) = false).
  { destruct o; simpl; auto. unfold sgd_step. rewrite H. simpl. auto. }
  destruct Ho as [Ho1 Ho2]. destruct (IH (run_op o st) Ho2) as [H1 H2].
  rewrite H1, Ho1. auto.
Qed.

Lemma construct_FA_frozen (fan_in fan_out : nat) (fiof : bool) (r : nat) (p alpha : Qc)
  (init_method : string) (ow : option tensor) (cv : bool) (o : oracles) (st : lora) :
  construct LoRAFAParametrization fan_in fan_out fiof r p alpha init_method ow cv o = Ok st ->
  A_requires_grad st = false.
Proof.
  unfold construct. destruct (init_AB _ _ _ _ _ _ _ _) as [[[A B] Vb]|]; simpl; [|discriminate].
  destruct (Nat.eqb r 0); simpl; [discriminate|].
  destruct (Qc_ltb 0 p && Qc_ltb 1 p); simpl; [discriminate|].
  intros H. injection H as <-. reflexivity.
Qed.

(** C5 (as corrected). In the fan_out x fan_in layout ([fan_in_fan_out]
    false), when torch's reduced QR of the transposed kaiming draw returns
    [Q] of shape (fan_in, rank) with orthonormal columns (which needs
    [rank <= fan_in]) and [R] of shape (rank, rank), constructing a
    [LoRAFAParametrization] with ["kaiming"] succeeds with [lora_A = Q.T],
    whose rows are orthonormal, [lora_B = zeros @ R = 0] and [B @ A = 0].
    For every init method, a constructed [LoRAFAParametrization] has
    [lora_A] non-trainable, and no optimizer step, toggle or forward
    evaluation afterwards changes it.  The first part assumes [rank >= 1]
    (the scale divides by rank) and [p <= 1] (the constructor rejects a
    larger dropout probability).  When [rank > fan_in], the reduced
    QR gives [R] of shape (fan_in, rank), and [zeros @ R] raises a shape
    error. *)
Theorem fa_kaiming_orthonormal_frozen :
  (forall (fan_in fan_out r : nat) (p alpha : Qc) (ow : option tensor) (cv : bool)
          (o : oracles) (Qm Rm : tensor),
     (1 <= r)%nat ->
     qr o (transpose (kaiming_uniform_ o (zeros [r; fan_in]))) = Ok (Qm, Rm) ->
     shape Qm = [fan_in; r] -> shape Rm = [r; r] ->
     (forall i j, (i < r)%nat -> (j < r)%nat ->
        sumk fan_in (fun k => get2 Qm k i * get2 Qm k j) = if Nat.eqb i j then 1 else 0) ->
     Qc_ltb 1 p = false ->
     exists st,
       construct LoRAFAParametrization fan_in fan_out false r p alpha "kaiming" ow cv o = Ok st /\
       lora_A st = transpose Qm /\
       (forall i j, (i < r)%nat -> (j < r)%nat ->
          sumk fan_in (fun k => get2 (lora_A st) i k * get2 (lora_A st) j k)
          = if Nat.eqb i j then 1 else 0) /\
       lora_B st = zeros [fan_out; r] /\
       matmul (lora_B st) (lora_A st) = Ok (zeros [fan_out; fan_in])) /\
  (forall (fan_in fan_out : nat) (fiof : bool) (r : nat) (p alpha : Qc)
          (init_method : string) (ow : option tensor) (cv : bool) (o : oracles) (st : lora),
     construct LoRAFAParametrization fan_in fan_out fiof r p alpha init_method ow cv o = Ok st ->
     A_requires_grad st = false /\ forall ops, lora_A (run ops st) = lora_A st) /\
  (forall (fan_in fan_out r : nat) (p alpha : Qc) (ow : option tensor) (cv : bool)
          (o : oracles) (Qm Rm : tensor),
     (fan_in < r)%nat ->
     qr o (transpose (kaiming_uniform_ o (zeros [r; fan_in]))) = Ok (Qm, Rm) ->
     shape Rm = [fan_in; r] ->
     construct LoRAFAParametrization fan_in fan_out false r p alpha "kaiming" ow cv o
       = Err RuntimeError).
Proof.
  split; [|split].
  - intros fan_in fan_out r p alpha ow cv o Qm Rm Hr Hqr HQ HR Horth Hp.
    unfold construct, init_AB. rewrite String.eqb_refl.
    cbn -[kaiming_uniform_ transpose zeros matmul].
    rewrite Hqr. cbn -[kaiming_uniform_ transpose zeros matmul].
    replace (zeros [fan_out; r]) with (zeros [fan_out; nrows Rm])
      by (unfold nrows; rewrite HR; reflexivity).
    rewrite matmul_zeros_l by (unfold is2d; rewrite HR; reflexivity).
    replace (ncols Rm) with r by (unfold ncols; rewrite HR; reflexivity).
    replace (nrows Rm) with r by (unfold nrows; rewrite HR; reflexivity).
    cbn -[kaiming_uniform_ transpose zeros matmul].
    assert (Hr0 : Nat.eqb r 0 = false) by (apply Nat.eqb_neq; lia).
    rewrite Hr0. cbn -[kaiming_uniform_ transpose zeros matmul]. rewrite Hp, andb_false_r.
    eexists. split; [reflexivity|]. cbn -[transpose zeros matmul].
    split; [reflexivity|]. split; [|split; [reflexivity|]].
    + intros i j Hi Hj. rewrite <- (Horth i j Hi Hj).
      apply sumk_ext. intros k Hk. unfold transpose.
      replace (ncols Qm) with r by (unfold ncols; rewrite HQ; reflexivity).
      replace (nrows Qm) with fan_in by (unfold nrows; rewrite HQ; reflexivity).
      rewrite !get2_mk2 by assumption. reflexivity.
    + replace (zeros [fan_out; r]) with (zeros [fan_out; nrows (transpose Qm)])
        by (unfold transpose, nrows; simpl; unfold ncols; rewrite HQ; reflexivity).
      rewrite matmul_zeros_l by reflexivity.
      unfold transpose, ncols at 1. simpl. unfold nrows. rewrite HQ. reflexivity.
  - intros fan_in fan_out fiof r p alpha init_method ow cv o st H.
    pose proof (construct_FA_frozen _ _ _ _ _ _ _ _ _ _ _ H) as Hf.
    split; [exact Hf|]. intros ops. apply (run_preserves_frozen_A ops st Hf).
  - intros fan_in fan_out r p alpha ow cv o Qm Rm Hlt Hqr HR.
    unfold construct, init_AB. rewrite String.eqb_refl.
    cbn -[kaiming_uniform_ transpose zeros matmul].
    rewrite Hqr. cbn -[kaiming_uniform_ transpose zeros].
    unfold matmul, is2d, ncols, nrows. rewrite HR. simpl.
    replace (Nat.eqb r fan_in) with false by (symmetry; apply Nat.eqb_neq; lia).
    reflexivity.
Qed.

(** C5 witness: fan_in 3, fan_out 2, rank 2, where the two rows of
    [lora_A] are orthonormal; and rank 2 above fan_in 1, which raises. *)
Lemma fa_kaiming_orthonormal_frozen_witness :
  (is_qr (transpose (kaiming_uniform_ qr122_oracles (zeros [2%nat; 3%nat])))
     (mkT [3%nat; 2%nat] [qfrac 1 3; qfrac 2 3; qfrac 2 3; qfrac 1 3; qfrac 2 3; qfrac (-2) 3])
     (mkT [2%nat; 2%nat] [qc 3; 0; 0; qc 3]) = true /\
   exists st,
     construct LoRAFAParametrization 3 2 false 2 0 1 "kaiming" None false qr122_oracles = Ok st /\
     lora_A st = transpose (mkT [3%nat; 2%nat]
                   [qfrac 1 3; qfrac 2 3; qfrac 2 3; qfrac 1 3; qfrac 2 3; qfrac (-2) 3]) /\
     (forall i j, (i < 2)%nat -> (j < 2)%nat ->
        sumk 3 (fun k => get2 (lora_A st) i k * get2 (lora_A st) j k)
        = if Nat.eqb i j then 1 else 0) /\
     lora_B st = zeros [2%nat; 2%nat] /\
     matmul (lora_B st) (lora_A st) = Ok (zeros [2%nat; 3%nat])) /\
  construct LoRAFAParametrization 1 1 false 2 0 1 "kaiming" None false qr_oracles
    = Err RuntimeError.
Proof.
  destruct fa_kaiming_orthonormal_frozen as [H [_ H3]].
  split.
  - split; [vm_compute; reflexivity|].
    apply (H 3%nat 2%nat 2%nat 0 1 None false qr122_oracles
             (mkT [3%nat; 2%nat] [qfrac 1 3; qfrac 2 3; qfrac 2 3; qfrac 1 3; qfrac 2 3; qfrac (-2) 3])
             (mkT [2%nat; 2%nat] [qc 3; 0; 0; qc 3])).
    + lia.
    + vm_compute. reflexivity.
    + reflexivity.
    + reflexivity.
    + intros i j Hi Hj.
      destruct i as [|[|i]]; [| |lia]; destruct j as [|[|j]]; try lia;
        apply Qc_is_canon; vm_compute; reflexivity.
    + vm_compute. reflexivity.
  - apply (H3 1%nat 1%nat 2%nat 0 1 None false qr_oracles
             (mkT [1%nat; 1%nat] [1]) (mkT [1%nat; 2%nat] [1; 1])).
    + lia.
    + vm_compute. reflexivity.
    + reflexivity.
Defined.

(** C5 counterexample: with rank 2 above fan_in 1, the reduced QR of the
    (1, 2) transposed draw has a (1, 2) factor R, and [lora_B @ R] with
    [lora_B] of shape (1, 2) raises. *)
Lemma fa_kaiming_rank_above_fan_in_counterexample :
  qr qr_oracles (transpose (kaiming_uniform_ qr_oracles (zeros [2%nat; 1%nat])))
    = Ok (mkT [1%nat; 1%nat] [1], mkT [1%nat; 2%nat] [1; 1]) /\
  is_qr (transpose (kaiming_uniform_ qr_oracles (zeros [2%nat; 1%nat])))
    (mkT [1%nat; 1%nat] [1]) (mkT [1%nat; 2%nat] [1; 1]) = true /\
  construct LoRAFAParametrization 1 1 false 2 0 1 "kaiming" None false qr_oracles
    = Err RuntimeError.
Proof. repeat split; vm_compute; reflexivity. Qed.

(** ** Module traversals *)

Lemma mapM_named_lookup (g : string -> module -> res module) (ks ks' : list (string * module))
  (k : string) (c : module) :
  mapM (fun '(n, c) => c' <- g n c ;; Ok (n, c')) ks = Ok ks' ->
  alookup k ks = Some c ->
  exists c', alookup k ks' = Some c' /\ g k c = Ok c'.
Proof.
  revert ks'. induction ks as [|[n c0] r IH]; intros ks' Hm Hl; simpl in *; [discriminate|].
  destruct (g n c0) as [c0'|x] eqn:Hg; simpl in Hm; [|discriminate].
  destruct (mapM _ r) as [r'|x] eqn:Hr; simpl in Hm; [|discriminate].
  injection Hm as <-. simpl.
  destruct (String.eqb k n) eqn:Hk.
  - injection Hl as <-. apply String.eqb_eq in Hk. subst. eauto.
  - exact (IH r' eq_refl Hl).
Qed.

(** a module whose name, and whose ancestors' names, the walk's body leaves
    alone keeps its class, parameters and overlays *)
Lemma walk_named_frame (visit : string -> module -> res module) (path : list string) :
  forall fuel prefix m m' n,
  walk_named fuel visit prefix m = Ok m' ->
  Forall (fun nm => forall l, visit nm l = Ok l) (path_names prefix path) ->
  find path m = Some n ->
  exists n', find path m' = Some n' /\ local n' = local n.
Proof.
  induction path as [|k r IH]; intros fuel prefix m m' n Hw Hsel Hf.
  - simpl in Hf. injection Hf as <-.
    destruct fuel as [|f]; simpl in Hw; [injection Hw as <-; exists m; split; reflexivity|].
    inversion Hsel as [|x y Hv Hrest]; subst.
    rewrite Hv in Hw. simpl in Hw. destruct m as [ty ps pz ks].
    destruct (mapM _ ks) as [ks'|x] eqn:Hm; simpl in Hw; [|discriminate].
    injection Hw as <-. eexists; split; reflexivity.
  - simpl in Hf. destruct (alookup k (mkids m)) as [c|] eqn:Hk; [|discriminate].
    destruct fuel as [|f]; simpl in Hw; [injection Hw as <-; exists n; split; [simpl; rewrite Hk; exact Hf|reflexivity]|].
    inversion Hsel as [|x y Hv Hrest]; subst.
    rewrite Hv in Hw. simpl in Hw. destruct m as [ty ps pz ks]. simpl in Hk.
    destruct (mapM _ ks) as [ks'|x] eqn:Hm; simpl in Hw; [|discriminate].
    injection Hw as <-.
    destruct (mapM_named_lookup (fun n c => walk_named f visit (qualify prefix n) c) ks ks' k c Hm Hk)
      as [c' [Hk' Hc']].
    simpl. rewrite Hk'. exact (IH f (qualify prefix k) c c' n Hc' Hrest Hf).
Qed.

Lemma str_app_assoc (a b c : string) : ((a ++ b) ++ c = a ++ (b ++ c))%string.
Proof. induction a as [|x a IH]; simpl; [reflexivity|now rewrite IH]. Qed.

Lemma qualify_extends (prefix k : string) : exists s, qualify prefix k = (prefix ++ s)%string.
Proof.
  unfold qualify. destruct (String.eqb prefix "") eqn:H.
  - apply String.eqb_eq in H. subst. exists k. reflexivity.
  - eexists. reflexivity.
Qed.

Lemma qualified_name_extends (path : list string) :
  forall prefix, exists s, qualified_name prefix path = (prefix ++ s)%string.
Proof.
  induction path as [|k r IH]; intros prefix; simpl.
  - exists EmptyString. induction prefix as [|x p IHp]; simpl; [reflexivity|now rewrite <- IHp].
  - destruct (IH (qualify prefix k)) as [s1 H1]. destruct (qualify_extends prefix k) as [s2 H2].
    rewrite H1, H2, str_app_assoc. eauto.
Qed.

(** every name on a path is a prefix of the qualified name at its end *)
Lemma path_names_prefix (path : list string) :
  forall prefix nm, In nm (path_names prefix path) ->
  exists s, qualified_name prefix path = (nm ++ s)%string.
Proof.
  induction path as [|k r IH]; intros prefix nm Hin; simpl in Hin.
  - destruct Hin as [<-|[]]. exists EmptyString. simpl.
    induction prefix as [|x p IHp]; simpl; [reflexivity|now rewrite <- IHp].
  - destruct Hin as [<-|Hin].
    + apply qualified_name_extends.
    + exact (IH (qualify prefix k) nm Hin).
Qed.

Lemma is_prefix_app (f s1 s2 : string) : is_prefix f s1 = true -> is_prefix f (s1 ++ s2) = true.
Proof.
  revert s1. induction f as [|a f IH]; intros [|b s1] H; simpl in *; try discriminate; auto.
  apply andb_prop in H as [H1 H2]. rewrite H1. simpl. auto.
Qed.

Lemma contains_app (f s1 s2 : string) : contains f s1 = true -> contains f (s1 ++ s2) = true.
Proof.
  induction s1 as [|a s1 IH]; intros H.
  - simpl in H. rewrite orb_false_r in H. destruct f; [|discriminate].
    destruct s2; reflexivity.
  - simpl in H. simpl. apply orb_prop in H as [H|H].
    + pose proof (is_prefix_app _ _ s2 H) as Hp. simpl in Hp. rewrite Hp. reflexivity.
    + rewrite (IH H). apply orb_true_r.
Qed.

Lemma not_contains_ancestors (frags : list string) (path : list string) :
  existsb (fun m => contains m (qualified_name "" path)) frags = false ->
  Forall (fun nm => existsb (fun m => contains m nm) frags = false) (path_names "" path).
Proof.
  intros H. apply Forall_forall. intros nm Hin.
  destruct (path_names_prefix path "" nm Hin) as [s Hs].
  destruct (existsb (fun m => contains m nm) frags) eqn:He; [|reflexivity].
  apply existsb_exists in He as [f [Hf Hc]].
  rewrite <- H. symmetry. apply existsb_exists. exists f. split; [exact Hf|].
  rewrite Hs. apply contains_app. exact Hc.
Qed.

(** C9: the removal path of [apply_lora] on a layer without parametrizations,
    and the register path on a layer whose class is not in the registry,
    return the layer unchanged without raising. *)
Theorem apply_lora_silent_noops :
  (forall (merge : bool) (cfg : lora_config) (e : env) (m : module),
     mpz m = [] -> apply_lora false merge cfg e m = Ok m) /\
  (forall (merge : bool) (cfg : lora_config) (e : env) (m : module),
     plookup (type_of m) cfg = None -> apply_lora true merge cfg e m = Ok m).
Proof.
  split; intros merge cfg e m H; unfold apply_lora.
  - rewrite H. reflexivity.
  - rewrite H. reflexivity.
Qed.

Lemma apply_lora_silent_noops_witness :
  mpz lin22 = [] /\ apply_lora false true [] eval_env lin22 = Ok lin22 /\
  plookup (type_of enc_model) (default_lora_config ones_oracles eval_env) = None /\
  apply_lora true false (default_lora_config ones_oracles eval_env) eval_env enc_model = Ok enc_model.
Proof.
  split; [reflexivity|]. split; [apply (proj1 apply_lora_silent_noops); reflexivity|].
  split; [reflexivity|]. apply (proj2 apply_lora_silent_noops). reflexivity.
Defined.

(** C6: on an [nn.Linear] whose registry entry overlays both [weight] and
    [bias], [add_lora] succeeds, and then both [merge_lora] and
    [remove_lora] raise [RuntimeError]: the removal loop of [apply_lora]
    shrinks [layer.parametrizations] while iterating over its keys. *)
Theorem merge_remove_two_overlays_raise :
  exists m1, add_lora (two_attr_config ones_oracles eval_env) eval_env lin22 = Ok m1 /\
    map fst (mpz m1) = ["weight"; "bias"]%string /\
    merge_lora eval_env m1 = Err RuntimeError /\
    remove_lora eval_env m1 = Err RuntimeError.
Proof.
  destruct (add_lora (two_attr_config ones_oracles eval_env) eval_env lin22) as [m1|x] eqn:H;
    vm_compute in H; [|discriminate].
  injection H as <-. eexists. split; [reflexivity|].
  vm_compute. repeat split.
Qed.

(** ** Association lists *)

Lemma alookup_in {A} (k : string) (l : list (string * A)) (v : A) :
  alookup k l = Some v -> In k (map fst l).
Proof.
  induction l as [|[k' v'] r IH]; simpl; [discriminate|].
  destruct (String.eqb_spec k k'); [subst; auto|]. intros H; right; auto.
Qed.

Lemma alookup_none {A} (k : string) (l : list (string * A)) :
  alookup k l = None <-> ~ In k (map fst l).
Proof.
  induction l as [|[k' v'] r IH]; simpl; [tauto|].
  destruct (String.eqb_spec k k'); [subst; split; [discriminate|tauto]|].
  rewrite IH. intuition.
Qed.

Lemma alookup_aremove_neq {A} (k a : string) (l : list (string * A)) :
  k <> a -> alookup k (aremove a l) = alookup k l.
Proof.
  intros Hne. induction l as [|[k' v'] r IH]; simpl; [reflexivity|].
  destruct (String.eqb_spec a k'); simpl.
  - subst. destruct (String.eqb_spec k k'); [congruence|reflexivity].
  - destruct (String.eqb k k'); [reflexivity|exact IH].
Qed.

Lemma aremove_keys {A} (a k : string) (l : list (string * A)) :
  In k (map fst (aremove a l)) -> In k (map fst l).
Proof.
  induction l as [|[k' v'] r IH]; simpl; [auto|].
  destruct (String.eqb a k'); simpl; [auto|]. intuition.
Qed.

Lemma aremove_nodup {A} (a : string) (l : list (string * A)) :
  NoDup (map fst l) -> NoDup (map fst (aremove a l)) /\ ~ In a (map fst (aremove a l)).
Proof.
  induction l as [|[k' v'] r IH]; simpl; intros Hn; [split; [constructor|auto]|].
  inversion Hn as [|x y Hx Hr]; subst.
  destruct (String.eqb_spec a k'); simpl.
  - subst. split; assumption.
  - destruct (IH Hr) as [H1 H2]. split.
    + constructor; [|exact H1]. intros Hin. apply Hx. eapply aremove_keys; eauto.
    + intros [H|H]; [congruence|contradiction].
Qed.

Lemma alookup_aremove_nodup {A} (a : string) (l : list (string * A)) :
  NoDup (map fst l) -> alookup a (aremove a l) = None.
Proof. intros Hn. apply alookup_none, (aremove_nodup a l Hn). Qed.

Lemma aupdate_keys {A} (a : string) (v : A) (l : list (string * A)) :
  map fst (aupdate a v l) = map fst l.
Proof.
  induction l as [|[k' v'] r IH]; simpl; [reflexivity|].
  destruct (String.eqb a k'); simpl; [reflexivity|]. rewrite IH. reflexivity.
Qed.

Lemma alookup_aupdate {A} (k a : string) (v : A) (l : list (string * A)) :
  alookup k (aupdate a v l) =
    if String.eqb k a then (match alookup a l with Some _ => Some v | None => None end)
    else alookup k l.
Proof.
  induction l as [|[k' v'] r IH]; simpl.
  - destruct (String.eqb k a); reflexivity.
  - destruct (String.eqb_spec a k') as [->|Hak]; simpl.
    + destruct (String.eqb k k'); reflexivity.
    + destruct (String.eqb_spec k k') as [->|Hkk]; simpl.
      * destruct (String.eqb_spec k' a); [congruence|reflexivity].
      * rewrite IH. destruct (String.eqb_spec a k'); [congruence|reflexivity].
Qed.

Lemma alookup_app {A} (k : string) (l1 l2 : list (string * A)) :
  alookup k (l1 ++ l2)%list = match alookup k l1 with Some v => Some v | None => alookup k l2 end.
Proof.
  induction l1 as [|[k' v'] r IH]; simpl; [reflexivity|].
  destruct (String.eqb k k'); [reflexivity|exact IH].
Qed.

Lemma fold_register_err (e : env) (attrs : list (string * factory)) (x : exn) :
  fold_left (fun acc '(attr, mk) => l <- acc ;; p <- mk l ;; register_parametrization e l attr p)
    attrs (Err x) = Err x.
Proof. induction attrs as [|[a mk] r IH]; simpl; auto. Qed.

Lemma read_attr_stack (e : env) (stack : list lora) (x : res tensor) (p : lora) :
  fold_left (fun acc q => y <- acc ;; forward q e y) (stack ++ [p])%list x =
  (y <- fold_left (fun acc q => y <- acc ;; forward q e y) stack x ;; forward p e y).
Proof. rewrite fold_left_app. reflexivity. Qed.

(** [register_parametrization]: afterwards the attribute reads as the new
    parametrization applied to its previous value, and every other attribute
    reads as before; the class and the children are kept and the layer is
    parametrized *)
Lemma register_parametrization_reads (e : env) (m m' : module) (attr : string) (p : lora) :
  register_parametrization e m attr p = Ok m' ->
  (forall e2, read_attr e2 m' attr = (y <- read_attr e2 m attr ;; forward p e2 y)) /\
  (forall e2 k, k <> attr -> read_attr e2 m' k = read_attr e2 m k) /\
  mtype m' = mtype m /\ mkids m' = mkids m /\ mpz m' <> [].
Proof.
  destruct m as [ty ps pz ks]. unfold register_parametrization.
  destruct (alookup attr pz) as [[orig stack]|] eqn:Ha.
  - destruct (read_attr e (Mod ty ps pz ks) attr) as [Y|x]; simpl; [|discriminate].
    destruct (forward p e Y) as [X|x]; simpl; [|discriminate].
    destruct (list_eq_dec _ _ _); [|discriminate]. intros H; injection H as <-.
    split; [|split; [|split; [reflexivity|split; [reflexivity|]]]].
    + intros e2. unfold read_attr; simpl. rewrite alookup_aupdate, String.eqb_refl, Ha.
      apply read_attr_stack.
    + intros e2 k Hk. unfold read_attr; simpl. rewrite alookup_aupdate.
      destruct (String.eqb_spec k attr); [congruence|reflexivity].
    + simpl. intros Hn. assert (Hk : In attr (map fst (aupdate attr (orig, (stack ++ [p])%list) pz)))
        by (rewrite aupdate_keys; eapply alookup_in; eauto). rewrite Hn in Hk. contradiction.
  - destruct (alookup attr ps) as [t|] eqn:Hp; [|discriminate].
    destruct (forward p e t) as [Z|x] eqn:Hf; simpl; [|discriminate].
    destruct (list_eq_dec _ _ _); [|discriminate]. intros H; injection H as <-.
    split; [|split; [|split; [reflexivity|split; [reflexivity|]]]].
    + intros e2. unfold read_attr; simpl. rewrite alookup_app, Ha, Hp. simpl.
      rewrite String.eqb_refl. reflexivity.
    + intros e2 k Hk. unfold read_attr; simpl. rewrite alookup_app.
      destruct (alookup k pz) as [[o s]|]; [reflexivity|]. simpl.
      destruct (String.eqb_spec k attr); [congruence|]. rewrite alookup_aremove_neq by exact Hk.
      reflexivity.
    + simpl. destruct pz; discriminate.
Qed.

Lemma nodup_snoc (l : list string) (a : string) : NoDup l -> ~ In a l -> NoDup (l ++ [a])%list.
Proof.
  intros H1 H2. apply NoDup_app; [exact H1|repeat constructor; auto|].
  intros x Hx [<-|[]]. contradiction.
Qed.

(** [remove_parametrizations] on a well-formed layer: the attribute reads as
    its original (or, with [leave_parametrized], as the value read at the
    time of the removal), every other attribute reads as before, and the
    attribute is no longer parametrized *)
Lemma remove_parametrizations_reads (e : env) (m m' : module) (attr : string) (leave : bool)
  (orig : tensor) (stack : list lora) :
  layer_wf m -> alookup attr (mpz m) = Some (orig, stack) ->
  remove_parametrizations e m attr leave = Ok m' ->
  (forall e2, read_attr e2 m' attr = if leave then read_attr e m attr else Ok orig) /\
  (forall e2 k, k <> attr -> read_attr e2 m' k = read_attr e2 m k) /\
  mtype m' = mtype m /\ mkids m' = mkids m /\ alookup attr (mpz m') = None.
Proof.
  destruct m as [ty ps pz ks]. intros [Hps [Hpz Hdis]] Ha. simpl in Ha.
  assert (Hnp : alookup attr ps = None)
    by (apply alookup_none, Hdis; simpl; eapply alookup_in; eauto).
  assert (Hgone : alookup attr (aremove attr pz) = None) by (apply alookup_aremove_nodup, Hpz).
  assert (Hframe : forall (o : tensor) e2 k, k <> attr ->
            read_attr e2 (Mod ty (ps ++ [(attr, o)])%list (aremove attr pz) ks) k =
            read_attr e2 (Mod ty ps pz ks) k).
  { intros o e2 k Hk. unfold read_attr; simpl. rewrite alookup_aremove_neq by exact Hk.
    destruct (alookup k pz) as [[o' s']|]; [reflexivity|].
    rewrite alookup_app. simpl. destruct (String.eqb_spec k attr); [congruence|].
    destruct (alookup k ps); reflexivity. }
  unfold remove_parametrizations. rewrite Ha.
  destruct leave.
  - destruct (read_attr e (Mod ty ps pz ks) attr) as [Y|x] eqn:Hr; simpl; [|discriminate].
    intros H; injection H as <-. split; [|split; [exact (Hframe Y)|auto]].
    intros e2. unfold read_attr at 1; simpl. rewrite Hgone, alookup_app, Hnp. simpl.
    rewrite String.eqb_refl. reflexivity.
  - simpl. intros H; injection H as <-. split; [|split; [exact (Hframe orig)|auto]].
    intros e2. unfold read_attr; simpl. rewrite Hgone, alookup_app, Hnp. simpl.
    rewrite String.eqb_refl. reflexivity.
Qed.

Lemma register_parametrization_wf (e : env) (m m' : module) (attr : string) (p : lora) :
  layer_wf m -> register_parametrization e m attr p = Ok m' -> layer_wf m'.
Proof.
  destruct m as [ty ps pz ks]. intros [Hps [Hpz Hdis]]. simpl in *. unfold register_parametrization.
  destruct (alookup attr pz) as [[orig stack]|] eqn:Ha.
  - destruct (read_attr e (Mod ty ps pz ks) attr) as [Y|x]; simpl; [|discriminate].
    destruct (forward p e Y) as [X|x]; simpl; [|discriminate].
    destruct (list_eq_dec _ _ _); [|discriminate]. intros H; injection H as <-.
    unfold layer_wf; simpl. rewrite aupdate_keys. auto.
  - destruct (alookup attr ps) as [t|] eqn:Hp; [|discriminate].
    destruct (forward p e t) as [Z|x]; simpl; [|discriminate].
    destruct (list_eq_dec _ _ _); [|discriminate]. intros H; injection H as <-.
    destruct (aremove_nodup attr ps Hps) as [H1 H2].
    unfold layer_wf; simpl. rewrite map_app. simpl. split; [exact H1|split].
    + apply nodup_snoc; [exact Hpz|]. apply alookup_none, Ha.
    + intros k Hk. apply in_app_iff in Hk as [Hk|[<-|[]]]; [|exact H2].
      intros Hin. exact (Hdis k Hk (aremove_keys _ _ _ Hin)).
Qed.

Lemma remove_parametrizations_wf (e : env) (m m' : module) (attr : string) (leave : bool) :
  layer_wf m -> remove_parametrizations e m attr leave = Ok m' -> layer_wf m'.
Proof.
  destruct m as [ty ps pz ks]. intros [Hps [Hpz Hdis]]. simpl in *. unfold remove_parametrizations.
  destruct (alookup attr pz) as [[orig stack]|] eqn:Ha; [|discriminate].
  assert (Hin : In attr (map fst pz)) by (eapply alookup_in; eauto).
  destruct (aremove_nodup attr pz Hpz) as [H1 H2].
  intros H. destruct (if leave then _ else _) as [o|x]; simpl in H; [|discriminate].
  injection H as <-. unfold layer_wf; simpl. rewrite map_app. simpl. split; [|split; [exact H1|]].
  - apply nodup_snoc; [exact Hps|exact (Hdis attr Hin)].
  - intros k Hk Hk'. apply in_app_iff in Hk' as [Hk'|[<-|[]]].
    + exact (Hdis k (aremove_keys _ _ _ Hk) Hk').
    + contradiction.
Qed.

(** ** Construction with the kaiming init, and registering the result *)

Lemma construct_kaiming_ok (fan_in fan_out : nat) (fiof : bool) (r : nat) (p alpha : Qc)
  (ow : option tensor) (cv : bool) (o : oracles) :
  r <> 0%nat -> Qc_ltb 1 p = false ->
  exists st, construct LoRAParametrization fan_in fan_out fiof r p alpha "kaiming" ow cv o = Ok st.
Proof.
  intros Hr Hp. unfold construct. simpl.
  destruct (Nat.eqb_spec r 0); [contradiction|]. simpl. rewrite Hp, andb_false_r. simpl. eauto.
Qed.

Lemma construct_kaiming_shapes (fan_in fan_out : nat) (fiof : bool) (r : nat) (p alpha : Qc)
  (ow : option tensor) (cv : bool) (o : oracles) (st : lora) :
  construct LoRAParametrization fan_in fan_out fiof r p alpha "kaiming" ow cv o = Ok st ->
  shape (lora_A st) = swap fiof r fan_in /\ lora_B st = zeros (swap fiof fan_out r) /\
  fan_in_fan_out st = fiof.
Proof.
  intros H. unfold construct in H. simpl in H.
  destruct (Nat.eqb r 0); simpl in H; [discriminate|].
  destruct (Qc_ltb 0 p && Qc_ltb 1 p); simpl in H; [discriminate|].
  injection H as <-. auto.
Qed.

(** the overlay [__init__] builds with the kaiming init returns every
    input of the parameter's size unchanged *)
Lemma kaiming_forward_id (fan_in fan_out : nat) (fiof : bool) (r : nat)
  (p alpha : Qc) (ow : option tensor) (cv : bool) (o : oracles) (st : lora) :
  construct LoRAParametrization fan_in fan_out fiof r p alpha "kaiming" ow cv o = Ok st ->
  forall (e : env) (X : tensor),
    tensor_wf X -> numel (shape X) = (fan_out * fan_in)%nat -> forward st e X = Ok X.
Proof.
  intros H. unfold construct in H. simpl in H.
  destruct (Nat.eqb r 0); simpl in H; [discriminate|].
  destruct (Qc_ltb 0 p && Qc_ltb 1 p); simpl in H; [discriminate|].
  injection H as <-.
  intros e X HX Hn. unfold forward; simpl.
  destruct (dropout_fn_shape
              (mkLora fiof alpha r (kaiming_uniform_ o (zeros (swap fiof r fan_in)))
                 (zeros (swap fiof fan_out r)) ow cv None (alpha / Qc_of_nat r) p
                 (ones (swap fiof 1 fan_in)) LoraForward true true) e r fan_in
              eq_refl eq_refl) as [d [Hd Hsd]].
  unfold lora_forward. rewrite Hd. simpl in Hsd |- *.
  assert (H2 : is2d d = true) by (apply (is2d_swap fiof r fan_in); exact Hsd).
  destruct fiof; simpl.
  - replace (zeros [r; fan_out]) with (zeros [ncols d; fan_out])
      by (unfold ncols; rewrite Hsd; reflexivity).
    rewrite matmul_zeros_r by exact H2. simpl.
    rewrite view_zeros by (rewrite Hn; unfold nrows; rewrite Hsd; simpl; lia).
    apply tadd_zero, HX.
  - replace (zeros [fan_out; r]) with (zeros [fan_out; nrows d])
      by (unfold nrows; rewrite Hsd; reflexivity).
    rewrite matmul_zeros_l by exact H2. simpl.
    rewrite view_zeros by (rewrite Hn; unfold ncols; rewrite Hsd; simpl; lia).
    apply tadd_zero, HX.
Qed.

(** registering an overlay that returns its input unchanged, on a plain
    parameter, succeeds and changes no read of the layer *)
Lemma register_identity_overlay (e : env) (m : module) (attr : string) (st : lora) (W : tensor) :
  alookup attr (mpz m) = None -> alookup attr (mparams m) = Some W ->
  (forall e2, forward st e2 W = Ok W) ->
  exists m', register_parametrization e m attr st = Ok m' /\
    mtype m' = mtype m /\ mkids m' = mkids m /\ mpz m' <> [] /\
    forall e2 k, read_attr e2 m' k = read_attr e2 m k.
Proof.
  intros Hz Hp Hf.
  assert (Hr : exists m', register_parametrization e m attr st = Ok m').
  { destruct m as [ty ps pz ks]. simpl in *. unfold register_parametrization.
    rewrite Hz, Hp, Hf. simpl. destruct (list_eq_dec _ _ _) as [_|C]; [eauto|congruence]. }
  destruct Hr as [m' Hm']. exists m'. split; [exact Hm'|].
  destruct (register_parametrization_reads e m m' attr st Hm') as [H1 [H2 [H3 [H4 H5]]]].
  split; [exact H3|split; [exact H4|split; [exact H5|]]].
  intros e2 k. destruct (String.eqb_spec k attr) as [->|Hk]; [|exact (H2 e2 k Hk)].
  assert (Hw : read_attr e2 m attr = Ok W) by (unfold read_attr; rewrite Hz, Hp; reflexivity).
  rewrite H1, Hw. apply Hf.
Qed.

(** ** Traversals *)

Lemma mod_apply_Mod (fn : module -> res module) ty ps pz ks :
  mod_apply fn (Mod ty ps pz ks) =
  (ks' <- mapM (fun '(n, c) => c' <- mod_apply fn c ;; Ok (n, c')) ks ;; fn (Mod ty ps pz ks')).
Proof. reflexivity. Qed.

Lemma alookup_in_pair {A} (k : string) (l : list (string * A)) (v : A) :
  alookup k l = Some v -> In (k, v) l.
Proof.
  induction l as [|[k' v'] r IH]; simpl; [discriminate|].
  destruct (String.eqb_spec k k'); [subst; intros H; injection H as <-; auto|auto].
Qed.

Lemma remove_all_keys_size (e : env) (leave : bool) (size0 : nat) (ks : list string) (m : module) :
  Nat.eqb (length (mpz m)) size0 = false -> remove_all_keys e leave size0 ks m = Err RuntimeError.
Proof. intros H. destruct ks; simpl; rewrite H; reflexivity. Qed.

(** the removal branch of [apply_lora] on one layer: without
    parametrizations it leaves the layer alone; with some, the first
    removal succeeds (when merging, as soon as the first attribute can be
    read) and the next iterator step raises *)
Lemma apply_lora_remove_raises (merge : bool) (cfg : lora_config) (e : env) (x : module)
  (a : string) (v : tensor * list lora) (rest : list (string * (tensor * list lora))) :
  mpz x = (a, v) :: rest ->
  (merge = false \/ exists t, read_attr e x a = Ok t) ->
  apply_lora false merge cfg e x = Err RuntimeError.
Proof.
  intros Hp Hm. destruct x as [ty ps pz ks]. simpl in Hp. subst pz. destruct v as [orig st].
  assert (Hr : exists t, (if merge then read_attr e (Mod ty ps ((a, (orig, st)) :: rest) ks) a
                          else Ok orig) = Ok t).
  { destruct merge; [destruct Hm as [H|[t H]]; [discriminate|eauto]|eauto]. }
  destruct Hr as [t Ht].
  unfold apply_lora. cbn [mpz map fst length remove_all_keys]. rewrite Nat.eqb_refl.
  unfold remove_parametrizations at 1. cbn [alookup]. rewrite String.eqb_refl, Ht.
  cbn [bind]. apply remove_all_keys_size. simpl. rewrite String.eqb_refl.
  apply Nat.eqb_neq. lia.
Qed.


Lemma remove_lora_kids (e : env) (ks : list (string * module)) :
  Forall (fun kc =>
    (all_nodes (fun n => match mpz n with [] => true | _ => false end) (snd kc) = true /\
     remove_lora e (snd kc) = Ok (snd kc)) \/
    (all_nodes (fun n => match mpz n with [] => true | _ => false end) (snd kc) = false /\
     remove_lora e (snd kc) = Err RuntimeError)) ks ->
  (forallb (fun '(_, c) => all_nodes (fun n => match mpz n with [] => true | _ => false end) c) ks
     = true /\
   mapM (fun '(n, c) => c' <- mod_apply (apply_lora false false [] e) c ;; Ok (n, c')) ks = Ok ks) \/
  (forallb (fun '(_, c) => all_nodes (fun n => match mpz n with [] => true | _ => false end) c) ks
     = false /\
   mapM (fun '(n, c) => c' <- mod_apply (apply_lora false false [] e) c ;; Ok (n, c')) ks
     = Err RuntimeError).
Proof.
  induction 1 as [|[n c] r Hc Hr IH]; simpl in *.
  - left. split; reflexivity.
  - unfold remove_lora in Hc.
    destruct Hc as [[Hg Hc']|[Hb Hc']]; rewrite Hc'; simpl.
    + rewrite Hg. simpl. destruct IH as [[Hg' Hm]|[Hb' Hm]]; rewrite Hm; simpl.
      * left. split; [exact Hg'|reflexivity].
      * right. auto.
    + rewrite Hb. simpl. right. auto.
Qed.

Lemma remove_lora_outcome_tree (e : env) (m : module) :
  (all_nodes (fun n => match mpz n with [] => true | _ => false end) m = true /\
   remove_lora e m = Ok m) \/
  (all_nodes (fun n => match mpz n with [] => true | _ => false end) m = false /\
   remove_lora e m = Err RuntimeError).
Proof.
  induction m as [ty ps pz ks IH] using module_ind'.
  unfold remove_lora. rewrite mod_apply_Mod.
  destruct (remove_lora_kids e ks IH) as [[Hg Hm]|[Hb Hm]]; rewrite Hm; cbn [bind].
  - destruct pz as [|[a v] rest].
    + left. split; [simpl; rewrite Hg; reflexivity|reflexivity].
    + right. split; [reflexivity|]. apply (apply_lora_remove_raises false [] e _ a v rest);
        [reflexivity|left; reflexivity].
  - right. split; [simpl; rewrite Hb, andb_false_r; reflexivity|reflexivity].
Qed.


Lemma type_of_parametrized (m : module) : mpz m <> [] -> type_of m = Parametrized (mtype m).
Proof. unfold type_of. destruct (mpz m); [congruence|reflexivity]. Qed.

(** the registrations of one registry entry, in order *)
Lemma register_fold_spec (e : env) (attrs : list (string * factory)) :
  forall m y,
  fold_left (fun acc '(attr, mk) => l <- acc ;; p <- mk l ;; register_parametrization e l attr p)
    attrs (Ok m) = Ok y ->
  mkids y = mkids m /\ mtype y = mtype m /\ ((attrs = [] /\ y = m) \/ mpz y <> []).
Proof.
  induction attrs as [|[a mk] r IH]; intros m y H; simpl in H.
  - injection H as <-. auto.
  - destruct (mk m) as [p|x]; simpl in H; [|rewrite fold_register_err in H; discriminate].
    destruct (register_parametrization e m a p) as [m2|x] eqn:Hr;
      [|rewrite fold_register_err in H; discriminate].
    destruct (register_parametrization_reads e m m2 a p Hr) as [_ [_ [Ht [Hk Hz]]]].
    destruct (IH m2 y H) as [H1 [H2 [[_ ->]|H3]]].
    + rewrite Ht, Hk. auto.
    + rewrite H1, H2, Ht, Hk. auto.
Qed.




Lemma read_attr_kids (e : env) ty ps pz ks ks' (k : string) :
  read_attr e (Mod ty ps pz ks') k = read_attr e (Mod ty ps pz ks) k.
Proof. reflexivity. Qed.

(** the register branch of [apply_lora] with the default registry, on a
    layer [from_linear] can read: no read of the layer changes *)
Lemma apply_lora_default_node (o : oracles) (e0 e : env) (x : module) :
  linear_ready x = true ->
  exists y, apply_lora true false (default_lora_config o e0) e x = Ok y /\
    mkids y = mkids x /\ mtype y = mtype x /\
    forall e2 k, read_attr e2 y k = read_attr e2 x k.
Proof.
  unfold linear_ready. intros H.
  destruct (type_of x) as [t|t] eqn:Ht.
  - destruct (ltype_eq_dec t Linear) as [->|Hne].
    + assert (Hz : mpz x = []) by (unfold type_of in Ht; destruct (mpz x); [reflexivity|discriminate]).
      destruct (alookup "weight" (mparams x)) as [W|] eqn:Hw; [|discriminate].
      revert H. destruct (shape W) as [|a [|b [|]]] eqn:Hs; try discriminate. intros H.
      apply Nat.eqb_eq in H.
      assert (Hl : plookup (type_of x) (default_lora_config o e0) =
                   Some [("weight", from_linear o e0 4)]) by (rewrite Ht; reflexivity).
      unfold apply_lora. rewrite Hl. cbn [fold_left bind].
      assert (Hrd : read_attr e0 x "weight" = Ok W) by (unfold read_attr; rewrite Hz, Hw; reflexivity).
      destruct (construct_kaiming_ok b a false 4 0 1 None false o) as [st Hst]; [lia|reflexivity|].
      assert (Hf : from_linear o e0 4 x = Ok st) by (unfold from_linear; rewrite Hrd; simpl; rewrite Hs; exact Hst).
      rewrite Hf. cbn [bind].
      destruct (register_identity_overlay e x "weight" st W) as [y [Hy [H1 [H2 [_ H3]]]]].
      * rewrite Hz. reflexivity.
      * exact Hw.
      * intros e2. apply (kaiming_forward_id b a false 4 0 1 None false o st Hst e2 W).
        -- unfold tensor_wf. rewrite Hs. exact H.
        -- rewrite Hs. simpl. lia.
      * exists y. auto.
    + assert (Hl : plookup (type_of x) (default_lora_config o e0) = None).
      { rewrite Ht. simpl. destruct (ltype_eq_dec t Linear); [contradiction|reflexivity]. }
      unfold apply_lora. rewrite Hl. eexists; auto.
  - assert (Hl : plookup (type_of x) (default_lora_config o e0) = None) by (rewrite Ht; reflexivity).
    unfold apply_lora. rewrite Hl. eexists; auto.
Qed.

Lemma add_lora_default_kids (o : oracles) (e0 e : env) (ks : list (string * module)) :
  Forall (fun kc => all_nodes linear_ready (snd kc) = true ->
            exists c', add_lora (default_lora_config o e0) e (snd kc) = Ok c') ks ->
  forallb (fun '(_, c) => all_nodes linear_ready c) ks = true ->
  exists ks', mapM (fun '(n, c) => c' <- mod_apply (apply_lora true false (default_lora_config o e0) e) c ;;
                     Ok (n, c')) ks = Ok ks'.
Proof.
  induction 1 as [|[n c] r Hc Hr IH]; simpl; intros H; [eauto|].
  apply andb_prop in H as [H1 H2]. destruct (Hc H1) as [c' Hc']. unfold add_lora in Hc'. simpl in Hc'.
  rewrite Hc'. simpl. destruct (IH H2) as [r' Hr']. rewrite Hr'. simpl. eauto.
Qed.

Lemma add_lora_default_tree (o : oracles) (e0 e : env) (m : module) :
  all_nodes linear_ready m = true ->
  exists m', add_lora (default_lora_config o e0) e m = Ok m' /\
    forall path n, find path m = Some n ->
      exists n', find path m' = Some n' /\ mtype n' = mtype n /\
        forall e2 k, read_attr e2 n' k = read_attr e2 n k.
Proof.
  induction m as [ty ps pz ks IH] using module_ind'. intros H.
  simpl in H. apply andb_prop in H as [Hn Hks].
  destruct (add_lora_default_kids o e0 e ks) as [ks' Hm]; [|exact Hks|].
  { eapply Forall_impl; [|exact IH]. intros [n c] Hc Hr. destruct (Hc Hr) as [c' [Hc' _]]. eauto. }
  destruct (apply_lora_default_node o e0 e (Mod ty ps pz ks') Hn) as [y [Hy [Hk [Ht Hr]]]].
  exists y. split; [unfold add_lora; rewrite mod_apply_Mod, Hm; exact Hy|].
  intros [|k path] n Hf; simpl in Hf.
  - injection Hf as <-. exists y. split; [reflexivity|]. split; [exact Ht|].
    intros e2 k. rewrite Hr. reflexivity.
  - destruct (alookup k ks) as [c|] eqn:Hc; [|discriminate].
    destruct (mapM_named_lookup (fun _ c => mod_apply (apply_lora true false (default_lora_config o e0) e) c)
                ks ks' k c Hm Hc) as [c' [Hk' Hc']].
    assert (Hin := alookup_in_pair k ks c Hc).
    rewrite Forall_forall in IH. destruct (IH (k, c) Hin) as [c'' [Hc'' Hp]].
    { rewrite forallb_forall in Hks. exact (Hks (k, c) Hin). }
    cbn [snd] in Hc''. unfold add_lora in Hc''. rewrite Hc' in Hc''. injection Hc'' as <-.
    destruct (Hp path n Hf) as [n' Hn']. exists n'. simpl. rewrite Hk. simpl. rewrite Hk'. exact Hn'.
Qed.

(** ** Forward, factories and walks *)

Lemma view_rows_conv (W : tensor) (co ci kh kw : nat) :
  shape W = [co; ci; kh; kw] -> tensor_wf W -> co <> 0%nat ->
  view_rows W = Ok (mkT [co; (ci * kh * kw)%nat] (data W)).
Proof.
  intros Hs Hw Hc. unfold view_rows. rewrite Hs.
  destruct (Nat.eqb_spec co 0); [contradiction|].
  assert (Hn : numel [co; ci; kh; kw] = ((ci * kh * kw) * co)%nat) by (simpl; lia).
  rewrite Hn, Nat.Div0.mod_mul, Nat.div_mul by exact Hc. simpl.
  unfold view. unfold tensor_wf in Hw. rewrite Hw, Hs.
  replace (numel [co; (ci * kh * kw)%nat]) with (numel [co; ci; kh; kw]) by (simpl; lia).
  rewrite Nat.eqb_refl. reflexivity.
Qed.

Lemma forward_shape_wf (st : lora) (e : env) (X Y : tensor) :
  forward st e X = Ok Y -> shape Y = shape X /\ (tensor_wf X -> tensor_wf Y).
Proof.
  unfold forward. destruct (forward_fn st); [|intros H; injection H as <-; auto].
  unfold lora_forward. destruct (dropout_fn st e (lora_A st)) as [dA|x]; simpl; [|discriminate].
  destruct (if fan_in_fan_out st then _ else _) as [P|x]; simpl; [|discriminate].
  unfold view. destruct (Nat.eqb_spec (numel (shape X)) (length (data P))) as [Hv|]; simpl;
    [|discriminate].
  unfold tadd, tscale. simpl. destruct (list_eq_dec _ _ _); [|discriminate].
  intros H; injection H as <-. simpl. split; [reflexivity|].
  unfold tensor_wf. simpl. intros Hw. rewrite length_map, length_combine, length_map, <- Hv, Hw.
  apply Nat.min_id.
Qed.

Lemma mapM_self (f : string * module -> res (string * module)) (ks : list (string * module)) :
  Forall (fun kc => f kc = Ok kc) ks -> mapM f ks = Ok ks.
Proof. induction 1 as [|kc r H _ IH]; simpl; [reflexivity|]. rewrite H. simpl. rewrite IH. reflexivity. Qed.

(** a walk whose body leaves every module of a downward-closed class as it
    is returns such a module unchanged *)
Lemma walk_named_fix (visit : string -> module -> res module) (P : module -> Prop) :
  (forall nm l, P l -> visit nm l = Ok l) ->
  (forall l, P l -> Forall (fun kc => P (snd kc)) (mkids l)) ->
  forall fuel prefix m, P m -> walk_named fuel visit prefix m = Ok m.
Proof.
  intros Hv Hc. induction fuel as [|f IH]; intros prefix m Hm; simpl; [reflexivity|].
  rewrite (Hv prefix m Hm). simpl. destruct m as [ty ps pz ks].
  rewrite mapM_self; [reflexivity|].
  specialize (Hc _ Hm). simpl in Hc. eapply Forall_impl; [|exact Hc].
  intros [n c] Hp. simpl in Hp |- *. rewrite (IH _ c Hp). reflexivity.
Qed.






Lemma nodupb_spec (l : list string) : nodupb l = true -> NoDup l.
Proof.
  induction l as [|x r IH]; simpl; intros H; [constructor|].
  apply andb_prop in H as [H1 H2]. constructor; [|auto].
  intros Hin. apply negb_true_iff in H1.
  assert (Hx : existsb (String.eqb x) r = true)
    by (apply existsb_exists; exists x; split; [exact Hin|apply String.eqb_refl]).
  congruence.
Qed.

Lemma layer_wfb_spec (m : module) : layer_wfb m = true -> layer_wf m.
Proof.
  unfold layer_wfb. intros H. apply andb_prop in H as [H H3]. apply andb_prop in H as [H1 H2].
  split; [apply nodupb_spec, H1|split; [apply nodupb_spec, H2|]].
  intros k Hk Hin. rewrite forallb_forall in H3. specialize (H3 k Hk).
  apply negb_true_iff in H3.
  assert (Hx : existsb (String.eqb k) (map fst (mparams m)) = true)
    by (apply existsb_exists; exists k; split; [exact Hin|apply String.eqb_refl]).
  congruence.
Qed.

Lemma remove_parametrizations_pz (e : env) (m m' : module) (attr : string) (leave : bool) :
  remove_parametrizations e m attr leave = Ok m' -> mpz m' = aremove attr (mpz m).
Proof.
  destruct m as [ty ps pz ks]. unfold remove_parametrizations.
  destruct (alookup attr pz) as [[orig stack]|]; [|discriminate].
  destruct (if leave then _ else _); simpl; [|discriminate]. intros H; injection H as <-. reflexivity.
Qed.

(** * Further properties of the code *)

(** X1: [LoRAParametrization.forward] keeps the shape of its input, and a well-formed input gives a well-formed output. *)
Theorem forward_keeps_shape (st : lora) (e : env) (X Y : tensor) :
  forward st e X = Ok Y -> shape Y = shape X /\ (tensor_wf X -> tensor_wf Y).
Proof. apply forward_shape_wf. Qed.

Lemma forward_keeps_shape_witness :
  exists Y, forward c1_state eval_env (mkT [1; 1]%nat [qc 5]) = Ok Y /\
    shape Y = [1; 1]%nat /\ tensor_wf Y.
Proof.
  destruct (forward c1_state eval_env (mkT [1; 1]%nat [qc 5])) as [Y|x] eqn:H;
    [|vm_compute in H; discriminate].
  destruct (forward_keeps_shape _ _ _ _ H) as [H1 H2].
  exists Y. split; [reflexivity|]. split; [exact H1|]. apply H2. reflexivity.
Defined.

(** X2: [parametrize.register_parametrization]: after registering [p] on an
    attribute, reading the attribute gives [p] applied to what it read
    before, every other attribute reads as before, and the layer keeps its
    class and children and counts as parametrized. *)
Theorem register_parametrization_read_compose (e : env) (m m' : module) (attr : string) (p : lora) :
  register_parametrization e m attr p = Ok m' ->
  (forall e2, read_attr e2 m' attr = (y <- read_attr e2 m attr ;; forward p e2 y)) /\
  (forall e2 k, k <> attr -> read_attr e2 m' k = read_attr e2 m k) /\
  mtype m' = mtype m /\ mkids m' = mkids m /\ type_of m' = Parametrized (mtype m).
Proof.
  intros H. destruct (register_parametrization_reads e m m' attr p H) as [H1 [H2 [H3 [H4 H5]]]].
  split; [exact H1|split; [exact H2|split; [exact H3|split; [exact H4|]]]].
  rewrite type_of_parametrized by exact H5. rewrite H3. reflexivity.
Qed.

Lemma register_parametrization_read_compose_witness :
  exists m', register_parametrization eval_env lin22 "weight" lora22 = Ok m' /\
    read_attr eval_env m' "weight" =
      (y <- read_attr eval_env lin22 "weight" ;; forward lora22 eval_env y) /\
    read_attr eval_env m' "bias" = read_attr eval_env lin22 "bias".
Proof.
  destruct (register_parametrization eval_env lin22 "weight" lora22) as [m'|x] eqn:H;
    [|vm_compute in H; discriminate].
  destruct (register_parametrization_read_compose _ _ _ _ _ H) as [H1 [H2 _]].
  exists m'. split; [reflexivity|]. split; [apply H1|]. apply H2. discriminate.
Defined.

(** X3: [parametrize.remove_parametrizations] on a well-formed layer: the
    attribute then reads as its original tensor, or with
    [leave_parametrized=True] as the value it read at the removal; every
    other attribute reads as before; the attribute is no longer
    parametrized, and class and children are kept. *)
Theorem remove_parametrizations_read_restore (e : env) (m m' : module) (attr : string)
  (leave : bool) (orig : tensor) (stack : list lora) :
  layer_wf m -> alookup attr (mpz m) = Some (orig, stack) ->
  remove_parametrizations e m attr leave = Ok m' ->
  (forall e2, read_attr e2 m' attr = if leave then read_attr e m attr else Ok orig) /\
  (forall e2 k, k <> attr -> read_attr e2 m' k = read_attr e2 m k) /\
  mtype m' = mtype m /\ mkids m' = mkids m /\ alookup attr (mpz m') = None.
Proof. apply remove_parametrizations_reads. Qed.

Lemma remove_parametrizations_read_restore_witness :
  exists m', remove_parametrizations eval_env lin22_two_overlays "weight" true = Ok m' /\
    read_attr eval_env m' "weight" = read_attr eval_env lin22_two_overlays "weight" /\
    read_attr eval_env m' "bias" = read_attr eval_env lin22_two_overlays "bias".
Proof.
  destruct (remove_parametrizations eval_env lin22_two_overlays "weight" true) as [m'|x] eqn:H;
    [|vm_compute in H; discriminate].
  destruct (remove_parametrizations_read_restore eval_env lin22_two_overlays m' "weight" true
              (ones [2; 2]%nat) [lora22]) as [H1 [H2 _]];
    [apply layer_wfb_spec; vm_compute; reflexivity|reflexivity|exact H|].
  exists m'. split; [reflexivity|]. split; [apply H1|]. apply H2. discriminate.
Defined.

(** X4: Registering and removing parametrizations keep a layer well formed:
    parameter names unique, parametrized names unique, and no name both a
    plain parameter and a parametrized attribute. *)
Theorem layer_wf_invariant :
  (forall (e : env) (m m' : module) (attr : string) (p : lora),
     layer_wf m -> register_parametrization e m attr p = Ok m' -> layer_wf m') /\
  (forall (e : env) (m m' : module) (attr : string) (leave : bool),
     layer_wf m -> remove_parametrizations e m attr leave = Ok m' -> layer_wf m').
Proof. split; [apply register_parametrization_wf|apply remove_parametrizations_wf]. Qed.

Lemma layer_wf_invariant_witness :
  exists m1 m2, register_parametrization eval_env lin22 "weight" lora22 = Ok m1 /\
    remove_parametrizations eval_env m1 "weight" false = Ok m2 /\ layer_wf m1 /\ layer_wf m2.
Proof.
  destruct (register_parametrization eval_env lin22 "weight" lora22) as [m1|x] eqn:H1;
    [|vm_compute in H1; discriminate].
  destruct (remove_parametrizations eval_env m1 "weight" false) as [m2|x] eqn:H2;
    [|vm_compute in H1; injection H1 as <-; vm_compute in H2; discriminate].
  assert (W1 : layer_wf m1)
    by (apply (proj1 layer_wf_invariant eval_env lin22 m1 "weight" lora22);
        [apply layer_wfb_spec; reflexivity|exact H1]).
  exists m1, m2. split; [reflexivity|]. split; [exact H2|]. split; [exact W1|].
  apply (proj2 layer_wf_invariant eval_env m1 m2 "weight" false W1 H2).
Defined.

(** X5: Registering a parametrization on a plain parameter of a well-formed
    layer and removing it again without [leave_parametrized] always
    succeeds and gives back a layer whose every attribute reads as in the
    original layer, with the same class and children. *)
Theorem register_remove_roundtrip (e : env) (m m1 : module) (attr : string) (p : lora) :
  layer_wf m -> alookup attr (mpz m) = None ->
  register_parametrization e m attr p = Ok m1 ->
  exists m2, remove_parametrizations e m1 attr false = Ok m2 /\
    layer_wf m2 /\ mtype m2 = mtype m /\ mkids m2 = mkids m /\
    forall e2 k, read_attr e2 m2 k = read_attr e2 m k.
Proof.
  intros Hw Hz Hr.
  assert (Hw1 := register_parametrization_wf e m m1 attr p Hw Hr).
  assert (Ht : exists t, alookup attr (mparams m) = Some t /\ alookup attr (mpz m1) = Some (t, [p])).
  { destruct m as [ty ps pz ks]. simpl in *. unfold register_parametrization in Hr. rewrite Hz in Hr.
    destruct (alookup attr ps) as [t|]; [|discriminate].
    destruct (forward p e t); simpl in Hr; [|discriminate].
    destruct (list_eq_dec _ _ _); [|discriminate]. injection Hr as <-.
    exists t. split; [reflexivity|]. simpl. rewrite alookup_app, Hz. simpl.
    rewrite String.eqb_refl. reflexivity. }
  destruct Ht as [t [Hp Hz1]].
  assert (Hrm : exists m2, remove_parametrizations e m1 attr false = Ok m2).
  { destruct m1 as [ty ps pz ks]. simpl in Hz1. unfold remove_parametrizations. rewrite Hz1.
    simpl. eauto. }
  destruct Hrm as [m2 Hm2]. exists m2. split; [exact Hm2|].
  destruct (register_parametrization_reads e m m1 attr p Hr) as [_ [R2 [R3 [R4 _]]]].
  destruct (remove_parametrizations_reads e m1 m2 attr false t [p] Hw1 Hz1 Hm2)
    as [Q1 [Q2 [Q3 [Q4 _]]]].
  split; [exact (remove_parametrizations_wf e m1 m2 attr false Hw1 Hm2)|].
  split; [congruence|]. split; [congruence|].
  intros e2 k. destruct (String.eqb_spec k attr) as [->|Hk].
  - rewrite Q1. unfold read_attr. rewrite Hz, Hp. reflexivity.
  - rewrite Q2, R2 by exact Hk. reflexivity.
Qed.

Lemma register_remove_roundtrip_witness :
  exists m1 m2, register_parametrization eval_env lin22 "weight" lora22 = Ok m1 /\
    remove_parametrizations eval_env m1 "weight" false = Ok m2 /\
    read_attr eval_env m2 "weight" = read_attr eval_env lin22 "weight".
Proof.
  destruct (register_parametrization eval_env lin22 "weight" lora22) as [m1|x] eqn:H1;
    [|vm_compute in H1; discriminate].
  destruct (register_remove_roundtrip eval_env lin22 m1 "weight" lora22) as [m2 [H2 [_ [_ [_ H3]]]]];
    [apply layer_wfb_spec; reflexivity|reflexivity|exact H1|].
  exists m1, m2. split; [reflexivity|]. split; [exact H2|]. apply H3.
Defined.

(** X6: [apply_lora(layer, register=False, merge)] on a layer with any
    parametrized attribute raises [RuntimeError], also when there is only
    one: the loop removes the first key of [layer.parametrizations], and
    the next step of the [dict] iterator finds the dictionary changed in
    size.  Without merging this always happens; when merging it happens as
    soon as the first attribute can be read. *)
Theorem apply_lora_remove_overlaid_raises (cfg : lora_config) (e : env) (m : module)
  (a : string) (v : tensor * list lora) (rest : list (string * (tensor * list lora))) :
  mpz m = (a, v) :: rest ->
  apply_lora false false cfg e m = Err RuntimeError /\
  ((exists t, read_attr e m a = Ok t) -> apply_lora false true cfg e m = Err RuntimeError).
Proof.
  intros Hp. split.
  - apply (apply_lora_remove_raises false cfg e m a v rest Hp). left. reflexivity.
  - intros Hr. apply (apply_lora_remove_raises true cfg e m a v rest Hp). right. exact Hr.
Qed.

Lemma apply_lora_remove_overlaid_raises_witness :
  apply_lora false false [] eval_env m1_single = Err RuntimeError /\
  apply_lora false true [] eval_env m1_single = Err RuntimeError.
Proof.
  assert (Hr : exists t, read_attr eval_env m1_single "weight" = Ok t).
  { destruct (read_attr eval_env m1_single "weight") as [t|x] eqn:H;
      [exists t; reflexivity|vm_compute in H; discriminate]. }
  destruct (apply_lora_remove_overlaid_raises [] eval_env m1_single "weight"
              (ones [2; 2]%nat, [lora22]) [] eq_refl) as [H1 H2].
  split; [exact H1|exact (H2 Hr)].
Defined.

(** X7: [apply_lora(layer, register=False, merge)] on a layer with two or more
    parametrized attributes raises [RuntimeError]: the loop over
    [layer.parametrizations.keys()] removes the first key and the
    dictionary has changed size when the iterator advances.  Without
    merging this always happens; when merging it happens as soon as the
    first attribute can be read. *)
Theorem apply_lora_remove_many_raises (cfg : lora_config) (e : env) (m : module)
  (a1 a2 : string) (v1 v2 : tensor * list lora) (rest : list (string * (tensor * list lora))) :
  mpz m = (a1, v1) :: (a2, v2) :: rest ->
  apply_lora false false cfg e m = Err RuntimeError /\
  ((exists v, read_attr e m a1 = Ok v) -> apply_lora false true cfg e m = Err RuntimeError).
Proof.
  intros Hpz. split.
  - apply (apply_lora_remove_raises false cfg e m a1 v1 ((a2, v2) :: rest) Hpz). left. reflexivity.
  - intros Hr. apply (apply_lora_remove_raises true cfg e m a1 v1 ((a2, v2) :: rest) Hpz).
    right. exact Hr.
Qed.

Lemma apply_lora_remove_many_raises_witness :
  (exists v, read_attr eval_env lin22_two_overlays "weight" = Ok v) /\
  apply_lora false true [] eval_env lin22_two_overlays = Err RuntimeError.
Proof.
  assert (Hr : exists v, read_attr eval_env lin22_two_overlays "weight" = Ok v).
  { destruct (read_attr eval_env lin22_two_overlays "weight") as [v|x] eqn:H;
      [exists v; reflexivity|vm_compute in H; discriminate]. }
  split; [exact Hr|].
  apply (proj2 (apply_lora_remove_many_raises [] eval_env lin22_two_overlays "weight" "bias"
                  (ones [2; 2]%nat, [lora22]) (ones [2]%nat, [lora_bias2]) [] eq_refl) Hr).
Defined.

(** X8: [remove_lora(model)] succeeds exactly when no module of the model
    has a parametrized attribute, and then returns the model unchanged;
    otherwise it raises [RuntimeError]. *)
Theorem remove_lora_outcome (e : env) (m : module) :
  (all_nodes (fun n => match mpz n with [] => true | _ => false end) m = true /\
   remove_lora e m = Ok m) \/
  (all_nodes (fun n => match mpz n with [] => true | _ => false end) m = false /\
   remove_lora e m = Err RuntimeError).
Proof. apply remove_lora_outcome_tree. Qed.



(** X10: [add_lora] with [default_lora_config] succeeds on every model whose
    plain [nn.Linear] layers have a two-dimensional weight, and in the
    result every submodule keeps its class and every one of its attributes
    reads as before: the fresh overlays start as the identity. *)
Theorem add_lora_default_keeps_reads (o : oracles) (e0 e : env) (m : module) :
  all_nodes linear_ready m = true ->
  exists m', add_lora (default_lora_config o e0) e m = Ok m' /\
    forall path n, find path m = Some n ->
      exists n', find path m' = Some n' /\ mtype n' = mtype n /\
        forall e2 k, read_attr e2 n' k = read_attr e2 n k.
Proof. apply add_lora_default_tree. Qed.

Lemma add_lora_default_keeps_reads_witness :
  exists m' n', add_lora (default_lora_config ones_oracles eval_env) eval_env enc_model = Ok m' /\
    find ["enc"; "0"] m' = Some n' /\
    read_attr eval_env n' "weight" = Ok (ones [2; 2]%nat).
Proof.
  destruct (add_lora_default_keeps_reads ones_oracles eval_env eval_env enc_model)
    as [m' [H1 H2]]; [vm_compute; reflexivity|].
  destruct (H2 ["enc"; "0"] (Mod Linear [("weight", ones [2; 2])]%nat [] [])) as [n' [H3 [_ H4]]];
    [reflexivity|].
  exists m', n'. split; [exact H1|]. split; [exact H3|]. rewrite H4. reflexivity.
Defined.

Lemma read_attr_param (e : env) (m : module) (attr : string) (W : tensor) :
  alookup attr (mpz m) = None -> alookup attr (mparams m) = Some W -> read_attr e m attr = Ok W.
Proof. intros Hz Hp. unfold read_attr. rewrite Hz, Hp. reflexivity. Qed.

(** X11: [LoRAParametrization.from_embedding] on a layer whose plain [weight]
    is a well-formed (num_embeddings, embedding_dim) tensor: for a nonzero
    rank and a dropout probability of at most 1 it builds an overlay with
    [fan_in_fan_out=True], [lora_A] of shape (num_embeddings, rank) and a
    zero [lora_B] of shape (rank, embedding_dim); registering it on the
    weight succeeds and leaves every attribute reading as before. *)
Theorem from_embedding_registers_identity (o : oracles) (e : env) (m : module)
  (rank : nat) (p alpha : Qc) (W : tensor) (num dim : nat) :
  rank <> 0%nat -> Qc_ltb 1 p = false ->
  alookup "weight" (mpz m) = None -> alookup "weight" (mparams m) = Some W ->
  shape W = [num; dim] -> tensor_wf W ->
  exists st m', cls_from_embedding LoRAParametrization o e rank p alpha m = Ok st /\
    fan_in_fan_out st = true /\ shape (lora_A st) = [num; rank] /\
    lora_B st = zeros [rank; dim] /\
    register_parametrization e m "weight" st = Ok m' /\
    forall e2 k, read_attr e2 m' k = read_attr e2 m k.
Proof.
  intros Hr Hp Hz Hw Hs Hwf.
  destruct (construct_kaiming_ok num dim true rank p alpha None false o Hr Hp) as [st Hst].
  assert (Hf : cls_from_embedding LoRAParametrization o e rank p alpha m = Ok st).
  { unfold cls_from_embedding. rewrite (read_attr_param e m "weight" W Hz Hw). simpl.
    rewrite Hs. exact Hst. }
  destruct (construct_kaiming_shapes _ _ _ _ _ _ _ _ _ _ Hst) as [HA [HB Hfi]].
  assert (Hid : forall e2, forward st e2 W = Ok W).
  { intros e2. apply (kaiming_forward_id _ _ _ _ _ _ _ _ _ _ Hst e2 W Hwf).
    rewrite Hs. simpl. lia. }
  destruct (register_identity_overlay e m "weight" st W Hz Hw Hid) as [m' [Hm' [_ [_ [_ Hrd]]]]].
  exists st, m'. split; [exact Hf|]. split; [exact Hfi|]. split; [exact HA|].
  split; [exact HB|]. split; [exact Hm'|exact Hrd].
Qed.

Lemma from_embedding_registers_identity_witness :
  exists st m', cls_from_embedding LoRAParametrization ones_oracles eval_env 1 0 1 emb32 = Ok st /\
    register_parametrization eval_env emb32 "weight" st = Ok m' /\
    read_attr eval_env m' "weight" = read_attr eval_env emb32 "weight".
Proof.
  destruct (from_embedding_registers_identity ones_oracles eval_env emb32 1 0 1
              (mkT [3; 2]%nat (map qc [1; 2; 3; 4; 5; 6]%Z)) 3 2)
    as [st [m' [H1 [_ [_ [_ [H2 H3]]]]]]];
    [discriminate|reflexivity|reflexivity|reflexivity|reflexivity|reflexivity|].
  exists st, m'. split; [exact H1|]. split; [exact H2|]. apply H3.
Defined.

(** X12: [LoRAParametrization.from_conv2d] on a layer whose plain [weight] is
    a well-formed (out_channels, in_channels, kh, kw) tensor with
    out_channels > 0: the weight is viewed as (out_channels,
    in_channels*kh*kw), and for a nonzero rank and a dropout probability of
    at most 1 it builds an overlay with [lora_A] of shape
    (rank, in_channels*kh*kw) and a zero [lora_B] of shape
    (out_channels, rank); registering it on the weight succeeds and leaves
    every attribute reading as before. *)
Theorem from_conv2d_registers_identity (o : oracles) (e : env) (m : module)
  (rank : nat) (p alpha : Qc) (W : tensor) (co ci kh kw : nat) :
  rank <> 0%nat -> Qc_ltb 1 p = false ->
  alookup "weight" (mpz m) = None -> alookup "weight" (mparams m) = Some W ->
  shape W = [co; ci; kh; kw] -> tensor_wf W -> co <> 0%nat ->
  exists st m', cls_from_conv2d LoRAParametrization o e rank p alpha m = Ok st /\
    fan_in_fan_out st = false /\ shape (lora_A st) = [rank; (ci * kh * kw)%nat] /\
    lora_B st = zeros [co; rank] /\
    register_parametrization e m "weight" st = Ok m' /\
    forall e2 k, read_attr e2 m' k = read_attr e2 m k.
Proof.
  intros Hr Hp Hz Hw Hs Hwf Hc.
  destruct (construct_kaiming_ok (ci * kh * kw) co false rank p alpha None false o Hr Hp)
    as [st Hst].
  assert (Hf : cls_from_conv2d LoRAParametrization o e rank p alpha m = Ok st).
  { unfold cls_from_conv2d. rewrite (read_attr_param e m "weight" W Hz Hw). simpl.
    rewrite (view_rows_conv W co ci kh kw Hs Hwf Hc). simpl. exact Hst. }
  destruct (construct_kaiming_shapes _ _ _ _ _ _ _ _ _ _ Hst) as [HA [HB Hfi]].
  assert (Hid : forall e2, forward st e2 W = Ok W).
  { intros e2. apply (kaiming_forward_id _ _ _ _ _ _ _ _ _ _ Hst e2 W Hwf).
    rewrite Hs. simpl. lia. }
  destruct (register_identity_overlay e m "weight" st W Hz Hw Hid) as [m' [Hm' [_ [_ [_ Hrd]]]]].
  exists st, m'. split; [exact Hf|]. split; [exact Hfi|]. split; [exact HA|].
  split; [exact HB|]. split; [exact Hm'|exact Hrd].
Qed.

Lemma from_conv2d_registers_identity_witness :
  exists st m', cls_from_conv2d LoRAParametrization ones_oracles eval_env 1 0 1 conv2x1x1x2 = Ok st /\
    register_parametrization eval_env conv2x1x1x2 "weight" st = Ok m' /\
    read_attr eval_env m' "weight" = read_attr eval_env conv2x1x1x2 "weight".
Proof.
  destruct (from_conv2d_registers_identity ones_oracles eval_env conv2x1x1x2 1 0 1
              (mkT [2; 1; 1; 2]%nat (map qc [1; 2; 3; 4]%Z)) 2 1 1 2)
    as [st [m' [H1 [_ [_ [_ [H2 H3]]]]]]];
    [discriminate|reflexivity|reflexivity|reflexivity|reflexivity|reflexivity|discriminate|].
  exists st, m'. split; [exact H1|]. split; [exact H2|]. apply H3.
Defined.

(** X13: [LoRAFAParametrization.from_conv2d] and [LoRAFAParametrization.from_embedding]
    never build an overlay: they leave [init_method] at the class default
    ["svd"] and pass no [original_weights], so the constructor raises
    [ValueError] whenever the weight is read and has a usable shape, and
    every other path raises earlier. *)
Theorem fa_conv_embedding_never_construct (o : oracles) (e : env) (rank : nat) (p alpha : Qc)
  (m : module) :
  (exists x, cls_from_conv2d LoRAFAParametrization o e rank p alpha m = Err x) /\
  (exists x, cls_from_embedding LoRAFAParametrization o e rank p alpha m = Err x) /\
  (forall W, read_attr e m "weight" = Ok W -> (length (shape W) = 2)%nat ->
     cls_from_embedding LoRAFAParametrization o e rank p alpha m = Err ValueError) /\
  (forall W W2, read_attr e m "weight" = Ok W -> view_rows W = Ok W2 ->
     (length (shape W2) = 2)%nat ->
     cls_from_conv2d LoRAFAParametrization o e rank p alpha m = Err ValueError).
Proof.
  unfold cls_from_conv2d, cls_from_embedding.
  split; [|split; [|split]].
  - destruct (read_attr e m "weight") as [W|x]; simpl; [|eauto].
    destruct (view_rows W) as [W2|x]; simpl; [|eauto].
    destruct (shape W2) as [|a [|b [|c r]]]; eauto.
    unfold construct, init_AB, init_AB_svd. simpl. eauto.
  - destruct (read_attr e m "weight") as [W|x]; simpl; [|eauto].
    destruct (shape W) as [|a [|b [|c r]]]; eauto.
    unfold construct, init_AB, init_AB_svd. simpl. eauto.
  - intros W HW Hl. rewrite HW. simpl.
    destruct (shape W) as [|a [|b [|c r]]]; simpl in Hl; try discriminate. reflexivity.
  - intros W W2 HW Hv Hl. rewrite HW. simpl. rewrite Hv. simpl.
    destruct (shape W2) as [|a [|b [|c r]]]; simpl in Hl; try discriminate. reflexivity.
Qed.

Lemma fa_conv_embedding_never_construct_witness :
  cls_from_embedding LoRAFAParametrization ones_oracles eval_env 1 0 1 emb32 = Err ValueError /\
  cls_from_conv2d LoRAFAParametrization ones_oracles eval_env 1 0 1 conv2x1x1x2 = Err ValueError.
Proof.
  destruct (fa_conv_embedding_never_construct ones_oracles eval_env 1 0 1 emb32)
    as [_ [_ [H1 _]]].
  destruct (fa_conv_embedding_never_construct ones_oracles eval_env 1 0 1 conv2x1x1x2)
    as [_ [_ [_ H2]]].
  split.
  - apply (H1 (mkT [3; 2]%nat (map qc [1; 2; 3; 4; 5; 6]%Z))); reflexivity.
  - apply (H2 (mkT [2; 1; 1; 2]%nat (map qc [1; 2; 3; 4]%Z))
              (mkT [2; 2]%nat (map qc [1; 2; 3; 4]%Z))); reflexivity.
Defined.

Lemma height_pos (m : module) : exists f, height m = S f.
Proof. destruct m as [ty ps pz ks]. simpl. eauto. Qed.



(** X15: [add_lora_by_name] with no target names and [add_lora_by_layer_names]
    with an empty configuration visit every module without touching any:
    the model is returned unchanged. *)
Theorem by_name_empty_selection (cfg : lora_config) (e : env) (m : module) :
  add_lora_by_name cfg e [] m = Ok m /\ add_lora_by_layer_names e [] m = Ok m.
Proof.
  assert (Hc : forall l : module, True -> Forall (fun kc => (fun _ : module => True) (snd kc)) (mkids l))
    by (intros l _; apply Forall_forall; auto).
  split.
  - apply (walk_named_fix _ (fun _ => True)); [reflexivity|exact Hc|exact I].
  - apply (walk_named_fix _ (fun _ => True)); [reflexivity|exact Hc|exact I].
Qed.




(** X17: The classmethod factories on an unusable layer: without a [weight]
    attribute each raises [AttributeError]; [from_linear] and
    [from_embedding] raise [ValueError] when the weight does not have
    exactly two dimensions (the tuple unpacking fails); [from_conv2d]
    raises [IndexError] on a zero-dimensional weight ([shape[0]]) and
    [RuntimeError] when the leading dimension is 0 ([view(0, -1)]). *)
Theorem factory_errors (c : cls) (o : oracles) (e : env) (rank : nat) (p alpha : Qc)
  (init_method : string) (ow : option tensor) (cv : bool) (m : module) :
  (read_attr e m "weight" = Err AttributeError ->
     cls_from_linear c o e rank p alpha init_method ow cv m = Err AttributeError /\
     cls_from_conv2d c o e rank p alpha m = Err AttributeError /\
     cls_from_embedding c o e rank p alpha m = Err AttributeError) /\
  (forall W, read_attr e m "weight" = Ok W -> length (shape W) <> 2%nat ->
     cls_from_linear c o e rank p alpha init_method ow cv m = Err ValueError /\
     cls_from_embedding c o e rank p alpha m = Err ValueError) /\
  (forall W, read_attr e m "weight" = Ok W -> shape W = [] ->
     cls_from_conv2d c o e rank p alpha m = Err IndexError) /\
  (forall W rest, read_attr e m "weight" = Ok W -> shape W = 0%nat :: rest ->
     cls_from_conv2d c o e rank p alpha m = Err RuntimeError).
Proof.
  unfold cls_from_linear, cls_from_conv2d, cls_from_embedding.
  split; [|split; [|split]].
  - intros H. rewrite H. auto.
  - intros W H Hl. rewrite H. simpl.
    destruct (shape W) as [|a [|b [|d r]]]; [auto|auto|simpl in Hl; lia|auto].
  - intros W H Hs. rewrite H. simpl. unfold view_rows. rewrite Hs. reflexivity.
  - intros W rest H Hs. rewrite H. simpl. unfold view_rows. rewrite Hs. reflexivity.
Qed.

Lemma factory_errors_witness :
  cls_from_linear LoRAParametrization ones_oracles eval_env 1 0 1 "kaiming" None false
    (Mod Linear [("weight", ones [2]%nat)] [] []) = Err ValueError /\
  cls_from_conv2d LoRAParametrization ones_oracles eval_env 1 0 1
    (Mod Conv2d [("weight", zeros [0; 1; 1; 1]%nat)] [] []) = Err RuntimeError.
Proof.
  split.
  - apply (proj1 (proj1 (proj2 (factory_errors LoRAParametrization ones_oracles eval_env 1 0 1
             "kaiming" None false (Mod Linear [("weight", ones [2]%nat)] [] [])))
             (ones [2]%nat) eq_refl ltac:(discriminate))).
  - apply (proj2 (proj2 (proj2 (factory_errors LoRAParametrization ones_oracles eval_env 1 0 1
             "kaiming" None false (Mod Conv2d [("weight", zeros [0; 1; 1; 1]%nat)] [] []))))
             (zeros [0; 1; 1; 1]%nat) [1; 1; 1]%nat); reflexivity.
Defined.

(** ** Which layers the name-based walks overlay *)

Lemma overlay_mono_refl (G : ltype -> Prop) (m : module) :
  (forall t, ~ G t) -> overlay_mono G m m.
Proof.
  intros HG path n Hf. exists n. split; [exact Hf|]. split; [reflexivity|].
  intros [H|H]; [exact H|destruct (HG _ H)].
Qed.

Lemma overlay_mono_weaken (G G' : ltype -> Prop) (m m' : module) :
  overlay_mono G m m' -> (forall t, G' t -> G t) -> overlay_mono G' m m'.
Proof.
  intros H HG path n Hf. destruct (H path n Hf) as [n' [H1 [H2 H3]]].
  exists n'. split; [exact H1|]. split; [exact H2|].
  intros [Hz|Hg]; apply H3; [left; exact Hz|right; apply HG; exact Hg].
Qed.

(** [add_lora] overlays every submodule whose plain class the registry lists
    with at least one attribute, and takes no overlay away *)
Lemma add_lora_overlay (cfg : lora_config) (e : env) (m : module) :
  forall m', add_lora cfg e m = Ok m' ->
  overlay_mono (fun t => exists attrs, plookup (Plain t) cfg = Some attrs /\ attrs <> []) m m'.
Proof.
  induction m as [ty ps pz ks IH] using module_ind'. intros m' H.
  unfold add_lora in H. rewrite mod_apply_Mod in H.
  destruct (mapM _ ks) as [ks'|x] eqn:Hm; cbn [bind] in H; [|discriminate].
  assert (Hn : mkids m' = ks' /\ mtype m' = ty /\
            ((pz <> [] \/ exists attrs, plookup (Plain ty) cfg = Some attrs /\ attrs <> []) ->
             mpz m' <> [])).
  { unfold apply_lora in H.
    destruct (plookup (type_of (Mod ty ps pz ks')) cfg) as [attrs|] eqn:Hp.
    - destruct (register_fold_spec e attrs _ _ H) as [H1 [H2 H3]].
      split; [exact H1|]. split; [exact H2|].
      intros Hc. destruct H3 as [[-> ->]|H3]; [|exact H3].
      simpl. destruct Hc as [Hc|[attrs' [Hc Hne]]]; [exact Hc|].
      destruct pz as [|z zs]; [|congruence].
      unfold type_of in Hp. simpl in Hp. rewrite Hc in Hp. injection Hp as ->. destruct (Hne eq_refl).
    - injection H as <-. split; [reflexivity|]. split; [reflexivity|].
      simpl. intros [Hc|[attrs [Hc Hne]]]; [exact Hc|].
      destruct pz as [|z zs]; [|congruence].
      unfold type_of in Hp. simpl in Hp. rewrite Hc in Hp. discriminate. }
  destruct Hn as [Hk [Ht Hz]].
  intros [|k path] n Hf; simpl in Hf.
  - injection Hf as <-. exists m'. split; [reflexivity|]. simpl. split; [exact Ht|]. exact Hz.
  - destruct (alookup k ks) as [c|] eqn:Hc; [|discriminate].
    destruct (mapM_named_lookup (fun _ c => mod_apply (apply_lora true false cfg e) c)
                ks ks' k c Hm Hc) as [c' [Hk' Hc']].
    rewrite Forall_forall in IH.
    destruct (IH (k, c) (alookup_in_pair k ks c Hc) c' Hc' path n Hf) as [n' Hn'].
    exists n'. simpl. rewrite Hk, Hk'. exact Hn'.
Qed.

(** a submodule of a model lies less deep than the model's height *)
Lemma find_height (path : list string) :
  forall m n, find path m = Some n -> (length path < height m)%nat.
Proof.
  induction path as [|k path IH]; intros m n Hf.
  - simpl. destruct (height_pos m) as [f ->]. lia.
  - simpl in Hf. destruct (alookup k (mkids m)) as [c|] eqn:Hc; [|discriminate].
    specialize (IH c n Hf). destruct m as [ty ps pz ks]. simpl in Hc |- *.
    assert (Hle : (height c <= list_max (map (fun '(_, c) => height c) ks))%nat).
    { assert (Hall := proj1 (list_max_le (map (fun '(_, c) => height c) ks) _) (le_n _)).
      rewrite Forall_forall in Hall. apply Hall.
      apply (in_map (fun '(_, c) => height c) ks (k, c) (alookup_in_pair k ks c Hc)). }
    lia.
Qed.

(** the qualified names on a path are those of its prefixes *)
Lemma path_names_split (path : list string) :
  forall prefix nm, In nm (path_names prefix path) ->
  exists p1 p2, path = (p1 ++ p2)%list /\ nm = qualified_name prefix p1.
Proof.
  induction path as [|k r IH]; intros prefix nm Hin; simpl in Hin.
  - destruct Hin as [<-|[]]. exists [], []. auto.
  - destruct Hin as [<-|Hin].
    + exists [], (k :: r). auto.
    + destruct (IH (qualify prefix k) nm Hin) as [p1 [p2 [-> ->]]].
      exists (k :: p1), p2. auto.
Qed.

Section WalkOverlay.

Variable visit : string -> module -> res module.
Variable G : string -> ltype -> Prop.
Hypothesis Hvisit : forall nm l l', visit nm l = Ok l' -> overlay_mono (G nm) l l'.

(** a walk whose body overlays, at a module named [nm], the submodules
    whose class satisfies [G nm]: a submodule within reach of the fuel ends
    up overlaid when its class satisfies [G] at its own name or at an
    ancestor's *)
Lemma walk_named_overlay (f : nat) :
  forall prefix m m' path n,
  walk_named f visit prefix m = Ok m' -> find path m = Some n -> (length path < f)%nat ->
  exists n', find path m' = Some n' /\ mtype n' = mtype n /\
    ((mpz n <> [] \/ exists p1 p2, path = (p1 ++ p2)%list /\
                      G (qualified_name prefix p1) (mtype n)) -> mpz n' <> []).
Proof.
  induction f as [|f IH]; intros prefix m m' path n Hw Hf Hl; [simpl in Hl; lia|].
  cbn [walk_named] in Hw. destruct (visit prefix m) as [m1|x] eqn:Hv; cbn [bind] in Hw; [|discriminate].
  destruct (Hvisit prefix m m1 Hv path n Hf) as [n1 [Hf1 [Ht1 Hz1]]].
  destruct m1 as [ty ps pz ks].
  destruct (mapM _ ks) as [ks'|x] eqn:Hm; cbn [bind] in Hw; [|discriminate].
  injection Hw as <-.
  destruct path as [|k path].
  - simpl in Hf1. injection Hf1 as <-. exists (Mod ty ps pz ks'). split; [reflexivity|].
    simpl in Ht1 |- *. split; [exact Ht1|].
    intros [Hc|[p1 [p2 [Hp HG]]]]; apply Hz1; [left; exact Hc|].
    destruct p1 as [|k1 p1]; [|discriminate]. right. exact HG.
  - simpl in Hf1. destruct (alookup k ks) as [c1|] eqn:Hc; [|discriminate].
    destruct (mapM_named_lookup (fun n c => walk_named f visit (qualify prefix n) c)
                ks ks' k c1 Hm Hc) as [c1' [Hk' Hc']].
    simpl in Hl.
    destruct (IH (qualify prefix k) c1 c1' path n1 Hc' Hf1 ltac:(lia)) as [n' [Hf' [Ht' Hz']]].
    exists n'. simpl. rewrite Hk'. split; [exact Hf'|]. split; [congruence|].
    intros Hc0. apply Hz'. destruct Hc0 as [Hc0|[p1 [p2 [Hp HG]]]].
    + left. apply Hz1. left. exact Hc0.
    + destruct p1 as [|k1 p1].
      * left. apply Hz1. right. exact HG.
      * simpl in Hp. injection Hp as <- Hp. right. exists p1, p2. split; [exact Hp|].
        rewrite Ht1. exact HG.
Qed.

End WalkOverlay.

(** the named walk of [add_lora_by_layer_names] overlays, below each keyed
    module, what that key's registry lists *)
Lemma layer_names_overlay (e : env) (named : list (string * lora_config)) (model model' : module) :
  add_lora_by_layer_names e named model = Ok model' ->
  forall path n, find path model = Some n ->
  exists n', find path model' = Some n' /\ mtype n' = mtype n /\
    ((mpz n <> [] \/ exists p1 p2 cfg attrs, path = (p1 ++ p2)%list /\
        alookup (qualified_name "" p1) named = Some cfg /\
        plookup (Plain (mtype n)) cfg = Some attrs /\ attrs <> []) -> mpz n' <> []).
Proof.
  intros Hw path n Hf. unfold add_lora_by_layer_names in Hw.
  assert (Hv : forall nm l l',
            (match alookup nm named with Some cfg => add_lora cfg e l | None => Ok l end) = Ok l' ->
            overlay_mono (fun t => exists cfg attrs, alookup nm named = Some cfg /\
                            plookup (Plain t) cfg = Some attrs /\ attrs <> []) l l').
  { intros nm l l' Hv. destruct (alookup nm named) as [cfg|] eqn:Hn.
    - apply (overlay_mono_weaken _ _ _ _ (add_lora_overlay cfg e l l' Hv)).
      intros t [cfg' [attrs [Hc [Hp Hne]]]]. injection Hc as <-. eauto.
    - injection Hv as <-. apply overlay_mono_refl.
      intros t [cfg' [attrs [Hc _]]]. discriminate. }
  destruct (walk_named_overlay _ _ Hv _ _ _ _ path n Hw Hf (find_height path model n Hf))
    as [n' [H1 [H2 H3]]].
  exists n'. split; [exact H1|]. split; [exact H2|].
  intros Hc. apply H3. destruct Hc as [Hc|[p1 [p2 [cfg [attrs [Hp [Hl [Hq Hne]]]]]]]]; [left; exact Hc|].
  right. exists p1, p2. split; [exact Hp|]. exists cfg, attrs. auto.
Qed.

(** the named walk of [add_lora_by_name] overlays, below each selected
    module, what the registry lists *)
Lemma by_name_overlay (cfg : lora_config) (e : env) (frags : list string) (model model' : module) :
  add_lora_by_name cfg e frags model = Ok model' ->
  forall path n, find path model = Some n ->
  exists n', find path model' = Some n' /\ mtype n' = mtype n /\
    ((mpz n <> [] \/ exists p1 p2 attrs, path = (p1 ++ p2)%list /\
        existsb (fun m => contains m (qualified_name "" p1)) frags = true /\
        plookup (Plain (mtype n)) cfg = Some attrs /\ attrs <> []) -> mpz n' <> []).
Proof.
  intros Hw path n Hf. unfold add_lora_by_name in Hw.
  assert (Hv : forall nm l l',
            (if existsb (fun m => contains m nm) frags then add_lora cfg e l else Ok l) = Ok l' ->
            overlay_mono (fun t => existsb (fun m => contains m nm) frags = true /\
                            exists attrs, plookup (Plain t) cfg = Some attrs /\ attrs <> []) l l').
  { intros nm l l' Hv. destruct (existsb (fun m => contains m nm) frags) eqn:Hn.
    - apply (overlay_mono_weaken _ _ _ _ (add_lora_overlay cfg e l l' Hv)).
      intros t [_ Ht]. exact Ht.
    - injection Hv as <-. apply overlay_mono_refl. intros t [Hc _]. discriminate. }
  destruct (walk_named_overlay _ _ Hv _ _ _ _ path n Hw Hf (find_height path model n Hf))
    as [n' [H1 [H2 H3]]].
  exists n'. split; [exact H1|]. split; [exact H2|].
  intros Hc. apply H3. destruct Hc as [Hc|[p1 [p2 [attrs [Hp [Hs [Hq Hne]]]]]]]; [left; exact Hc|].
  right. exists p1, p2. split; [exact Hp|]. split; [exact Hs|]. eauto.
Qed.

(** a layer without overlays has its plain class *)
Lemma type_of_plain (n : module) : mpz n = [] -> type_of n = Plain (mtype n).
Proof. intros H. unfold type_of. rewrite H. reflexivity. Qed.

(** C7 (as corrected): [add_lora_by_layer_names] runs [add_lora] on each
    module whose qualified name is a key of the map, and so overlays every
    layer in that module's subtree whose class the key's registry lists
    with at least one attribute, whether or not the layer's own name is a
    key; [add_lora_by_name] overlays every layer whose qualified name
    contains a fragment and whose class the registry lists with at least
    one attribute.  The overlaid layers keep their class.  Conversely, a
    layer none of whose own or ancestors' qualified names is a key of the
    map keeps its class, parameters and overlays, and so does, under
    [add_lora_by_name], a layer whose own qualified name contains none of
    the fragments (an ancestor's name is a prefix of it, so contains none
    either). *)
Theorem attach_by_name_frame :
  (forall (e : env) (named : list (string * lora_config)) (model model' : module)
          (path : list string) (n : module),
     add_lora_by_layer_names e named model = Ok model' ->
     Forall (fun nm => alookup nm named = None) (path_names "" path) ->
     find path model = Some n ->
     exists n', find path model' = Some n' /\ local n' = local n) /\
  (forall (cfg : lora_config) (e : env) (frags : list string) (model model' : module)
          (path : list string) (n : module),
     add_lora_by_name cfg e frags model = Ok model' ->
     existsb (fun m => contains m (qualified_name "" path)) frags = false ->
     find path model = Some n ->
     exists n', find path model' = Some n' /\ local n' = local n) /\
  (forall (e : env) (named : list (string * lora_config)) (model model' : module)
          (path : list string) (n : module) (nm : string) (cfg : lora_config)
          (attrs : list (string * factory)),
     add_lora_by_layer_names e named model = Ok model' ->
     find path model = Some n ->
     In nm (path_names "" path) -> alookup nm named = Some cfg ->
     plookup (type_of n) cfg = Some attrs -> attrs <> [] ->
     exists n', find path model' = Some n' /\ mtype n' = mtype n /\ mpz n' <> []) /\
  (forall (cfg : lora_config) (e : env) (frags : list string) (model model' : module)
          (path : list string) (n : module) (attrs : list (string * factory)),
     add_lora_by_name cfg e frags model = Ok model' ->
     find path model = Some n ->
     existsb (fun m => contains m (qualified_name "" path)) frags = true ->
     plookup (type_of n) cfg = Some attrs -> attrs <> [] ->
     exists n', find path model' = Some n' /\ mtype n' = mtype n /\ mpz n' <> []).
Proof.
  split; [|split; [|split]].
  - intros e named model model' path n Hw Hsel Hf.
    refine (walk_named_frame _ path _ _ model model' n Hw _ Hf).
    eapply Forall_impl; [|exact Hsel]. intros nm Hnm l. simpl. rewrite Hnm. reflexivity.
  - intros cfg e frags model model' path n Hw Hsel Hf.
    refine (walk_named_frame _ path _ _ model model' n Hw _ Hf).
    eapply Forall_impl; [|exact (not_contains_ancestors frags path Hsel)].
    intros nm Hnm l. simpl. rewrite Hnm. reflexivity.
  - intros e named model model' path n nm cfg attrs Hw Hf Hin Hk Hp Hne.
    destruct (layer_names_overlay e named model model' Hw path n Hf) as [n' [H1 [H2 H3]]].
    exists n'. split; [exact H1|]. split; [exact H2|]. apply H3.
    destruct (mpz n) as [|z zs] eqn:Hz; [right|left; discriminate].
    rewrite (type_of_plain n Hz) in Hp.
    destruct (path_names_split path "" nm Hin) as [p1 [p2 [Hpath Hnm]]]. subst nm.
    exists p1, p2, cfg, attrs. auto.
  - intros cfg e frags model model' path n attrs Hw Hf Hs Hp Hne.
    destruct (by_name_overlay cfg e frags model model' Hw path n Hf) as [n' [H1 [H2 H3]]].
    exists n'. split; [exact H1|]. split; [exact H2|]. apply H3.
    destruct (mpz n) as [|z zs] eqn:Hz; [right|left; discriminate].
    rewrite (type_of_plain n Hz) in Hp.
    exists path, [], attrs. rewrite app_nil_r. auto.
Qed.

Lemma attach_by_name_frame_witness :
  (exists model' n',
     add_lora_by_layer_names eval_env [("enc.0"%string, default_lora_config ones_oracles eval_env)]
       enc_model = Ok model' /\
     find ["enc"]%string model' = Some n' /\ local n' = local (Mod Sequential [] [] [("0"%string, Mod Linear [("weight"%string, ones [2; 2]%nat)] [] [])])) /\
  (exists model' n',
     add_lora_by_name (default_lora_config ones_oracles eval_env) eval_env ["0"%string] enc_model
       = Ok model' /\
     find ["enc"]%string model' = Some n' /\ local n' = local (Mod Sequential [] [] [("0"%string, Mod Linear [("weight"%string, ones [2; 2]%nat)] [] [])])) /\
  (exists model' n',
     add_lora_by_layer_names eval_env [("enc"%string, default_lora_config ones_oracles eval_env)]
       enc_model = Ok model' /\
     find ["enc"; "0"]%string model' = Some n' /\ mtype n' = Linear /\ mpz n' <> []) /\
  (exists model' n',
     add_lora_by_name (default_lora_config ones_oracles eval_env) eval_env ["0"%string] enc_model
       = Ok model' /\
     find ["enc"; "0"]%string model' = Some n' /\ mtype n' = Linear /\ mpz n' <> []).
Proof.
  split; [|split; [|split]].
  - destruct (add_lora_by_layer_names eval_env [("enc.0"%string, default_lora_config ones_oracles eval_env)]
                enc_model) as [m'|x] eqn:H; [|vm_compute in H; discriminate].
    destruct (proj1 attach_by_name_frame eval_env _ enc_model m' ["enc"]%string (Mod Sequential [] [] [("0"%string, Mod Linear [("weight"%string, ones [2; 2]%nat)] [] [])]) H)
      as [n' [H1 H2]]; [simpl; repeat constructor|reflexivity|].
    exists m', n'. split; [reflexivity|]. split; assumption.
  - destruct (add_lora_by_name (default_lora_config ones_oracles eval_env) eval_env ["0"%string]
                enc_model) as [m'|x] eqn:H; [|vm_compute in H; discriminate].
    destruct (proj1 (proj2 attach_by_name_frame) _ eval_env _ enc_model m' ["enc"]%string (Mod Sequential [] [] [("0"%string, Mod Linear [("weight"%string, ones [2; 2]%nat)] [] [])]) H)
      as [n' [H1 H2]]; [reflexivity|reflexivity|].
    exists m', n'. split; [reflexivity|]. split; assumption.
  - destruct (add_lora_by_layer_names eval_env [("enc"%string, default_lora_config ones_oracles eval_env)]
                enc_model) as [m'|x] eqn:H; [|vm_compute in H; discriminate].
    destruct (proj1 (proj2 (proj2 attach_by_name_frame)) eval_env _ enc_model m' ["enc"; "0"]%string
                (Mod Linear [("weight"%string, ones [2; 2]%nat)] [] []) "enc"%string
                (default_lora_config ones_oracles eval_env)
                [("weight"%string, from_linear ones_oracles eval_env 4)] H)
      as [n' [H1 [H2 H3]]];
      [reflexivity|simpl; auto|reflexivity|reflexivity|discriminate|].
    exists m', n'. split; [reflexivity|]. auto.
  - destruct (add_lora_by_name (default_lora_config ones_oracles eval_env) eval_env ["0"%string]
                enc_model) as [m'|x] eqn:H; [|vm_compute in H; discriminate].
    destruct (proj2 (proj2 (proj2 attach_by_name_frame)) _ eval_env _ enc_model m' ["enc"; "0"]%string
                (Mod Linear [("weight"%string, ones [2; 2]%nat)] [] [])
                [("weight"%string, from_linear ones_oracles eval_env 4)] H)
      as [n' [H1 [H2 H3]]];
      [reflexivity|reflexivity|reflexivity|discriminate|].
    exists m', n'. split; [reflexivity|]. auto.
Defined.

(** C7, the layer-name map: [add_lora] runs on the whole subtree of a keyed
    module, so the linear layer [enc.0], which is not a key, is overlaid
    when only its container [enc] is. *)
Lemma layer_names_descendant_counterexample :
  alookup "enc.0" [("enc"%string, default_lora_config ones_oracles eval_env)] = None /\
  overlay_attrs_at ["enc"; "0"]%string (Ok enc_model) = Some [] /\
  overlay_attrs_at ["enc"; "0"]%string
    (add_lora_by_layer_names eval_env [("enc"%string, default_lora_config ones_oracles eval_env)]
       enc_model) = Some ["weight"%string].
Proof. repeat split; vm_compute; reflexivity. Qed.
